(** * pythia-gallery: the cookbook gallery plugin

    A shallow embedding of [pythia-gallery.py]: fetching the metadata of
    every cookbook named in [cookbook_gallery.txt], rendering one card per
    cookbook, collecting the tags of the two known categories and
    rendering the filter controls.

    Conventions.
    - A Python exception that propagates is [Raise e]; [try_except] is the
      [try: ... except Exception: ... return None] wrapper of the source.
    - Python's [None] as a value is [None] of an [option] (a fetched entry
      or a card) or [YNull] inside a decoded YAML document.
    - Diagnostic output on stderr is not part of the model. *)

From Stdlib Require Import ZArith.
From stdpp Require Import base option list gmap sets strings sorting.

Set Warnings "-register-all".

(** ** Exceptions *)

Inductive exn := KeyError | TypeError | AttributeError | NameError | URLError.

Inductive result (A : Type) :=
| Return (a : A)
| Raise (e : exn).
Arguments Return {A} a.
Arguments Raise {A} e.

Definition bind {A B} (m : result A) (k : A → result B) : result B :=
  match m with
  | Return a => k a
  | Raise e => Raise e
  end.

Notation "x <- m ; k" := (bind m (λ x, k))
  (at level 20, m at level 100, k at level 200, only parsing).

(** [try: body  except Exception: return None] *)
Definition try_except {A} (body : result A) : option A :=
  match body with
  | Return a => Some a
  | Raise _ => None
  end.

(** A comprehension with two [for] clauses whose inner iterable may raise. *)
Fixpoint flat_mapM {A B} (f : A → result (list B)) (l : list A) : result (list B) :=
  match l with
  | [] => Return []
  | x :: l' => ys <- f x; zs <- flat_mapM f l'; Return (ys ++ zs)
  end.

Fixpoint for_each {A B} (f : A → result B) (l : list A) : result (list B) :=
  match l with
  | [] => Return []
  | x :: l' => y <- f x; ys <- for_each f l'; Return (y :: ys)
  end.

Fixpoint foldM {A S} (f : S → A → result S) (s : S) (l : list A) : result S :=
  match l with
  | [] => Return s
  | x :: l' => s' <- f s x; foldM f s' l'
  end.

(** ** Python dictionaries, in insertion order *)

Abbreviation odict V := (list (string * V)).

Fixpoint od_get {V} (k : string) (d : odict V) : option V :=
  match d with
  | [] => None
  | (k', v) :: d' => if decide (k' = k) then Some v else od_get k d'
  end.

Fixpoint od_set {V} (k : string) (v : V) (d : odict V) : odict V :=
  match d with
  | [] => [(k, v)]
  | (k', v') :: d' =>
      if decide (k' = k) then (k', v) :: d' else (k', v') :: od_set k v d'
  end.

Definition od_keys {V} (d : odict V) : list string := d.*1.

(** ** Decoded YAML documents

    What [yaml.load] hands back, as far as this program looks at it: null,
    strings, sequences and mappings with string keys.  The data model types
    every tag as a string; numbers, booleans and dates are left out, and
    no statement below says what the program does with them.  A string
    is held as the bytes of its UTF-8 encoding, whose order is the order
    of the code points. *)

Inductive yaml :=
| YNull
| YStr (s : string)
| YSeq (items : list yaml)
| YMap (items : odict yaml).

(** [v[k]] *)
Definition subscript (v : yaml) (k : string) : result yaml :=
  match v with
  | YMap d => match od_get k d with
              | Some x => Return x
              | None => Raise KeyError
              end
  | _ => Raise TypeError
  end.

(** [v.get(k, dflt)] *)
Definition dict_get (v : yaml) (k : string) (dflt : yaml) : result yaml :=
  match v with
  | YMap d => Return (default dflt (od_get k d))
  | _ => Raise AttributeError
  end.

(** [v.items()] *)
Definition dict_items (v : yaml) : result (odict yaml) :=
  match v with
  | YMap d => Return d
  | _ => Raise AttributeError
  end.

(** A [str] is held as the bytes of its UTF-8 encoding.  The bytes
    [10xxxxxx] continue the character of the byte before them. *)
Definition is_continuation (c : Ascii.ascii) : bool :=
  match c with
  | Ascii.Ascii _ _ _ _ _ _ b6 b7 => b7 && negb b6
  end.

(** Whether a string starts in the middle of a character. *)
Definition continued (s : string) : bool :=
  match s with
  | String c _ => is_continuation c
  | EmptyString => false
  end.

(** The characters of a [str], one string for each code point: what
    iterating the [str] yields. *)
Fixpoint chars (s : string) : list string :=
  match s with
  | EmptyString => []
  | String c s' =>
      match chars s' with
      | w :: ws =>
          if continued s' then String c w :: ws
          else String c EmptyString :: w :: ws
      | [] => [String c EmptyString]
      end
  end.

(** [for item in v]: the items a [for] loop sees, or [TypeError]. *)
Definition py_iter (v : yaml) : result (list yaml) :=
  match v with
  | YNull => Raise TypeError
  | YStr s => Return (YStr <$> chars s)
  | YSeq l => Return l
  | YMap d => Return (YStr <$> od_keys d)
  end.

(** [if v] *)
Definition truthy (v : yaml) : bool :=
  match v with
  | YNull => false
  | YStr s => bool_decide (s ≠ "")
  | YSeq l => bool_decide (l ≠ [])
  | YMap d => bool_decide (d ≠ [])
  end.

(** ** Set elements: the hashable values *)

Inductive key :=
| KNone
| KStr (s : string).

#[global] Instance key_eq_dec : EqDecision key.
Proof. solve_decision. Defined.

#[global] Instance key_countable : Countable key :=
  inj_countable'
    (λ k, match k with KNone => None | KStr s => Some s end)
    (λ o, match o with None => KNone | Some s => KStr s end)
    (λ k, match k with KNone => eq_refl | KStr _ => eq_refl end).

(** [hash(v)]: sequences and mappings are unhashable. *)
Definition hashable (v : yaml) : result key :=
  match v with
  | YNull => Return KNone
  | YStr s => Return (KStr s)
  | YSeq _ | YMap _ => Raise TypeError
  end.

(** [s.update(v)] *)
Definition set_update (s : gset key) (v : yaml) : result (gset key) :=
  items <- py_iter v;
  ks <- for_each hashable items;
  Return (s ∪ list_to_set ks).

(** [f"{tag}"] for a set element *)
Definition key_str (k : key) : string :=
  match k with
  | KNone => "None"
  | KStr s => s
  end.

(** The order in which a [set] is iterated depends on the hashes of its
    elements, which change from one interpreter run to the next; all that
    is known is that every element comes up once. *)
Record set_order := SetOrder {
  enum :> gset key → list key;
  enum_perm : ∀ s, enum s ≡ₚ elements s;
}.

Definition as_str (k : key) : result string :=
  match k with
  | KStr s => Return s
  | KNone => Raise TypeError
  end.

(** [sorted(l)]: strings compare by code point; comparing [None] with
    anything is a [TypeError], and a list of at most one element is
    returned without any comparison. *)
Definition sorted (l : list key) : result (list key) :=
  match l with
  | [] | [_] => Return l
  | _ => strs <- for_each as_str l; Return (KStr <$> merge_sort String.le strs)
  end.

(** ** Styles *)

Inductive css :=
| CssStr (s : string)
| CssNum (n : Z).

Definition LAYOUT_STYLE : odict css :=
  [ ("display", CssStr "inline-block");
    ("borderRadius", CssNum 8);
    ("color", CssStr "white");
    ("padding", CssNum 5);
    ("margin", CssNum 5) ].

Definition DEFAULT_STYLE : odict css :=
  ("background", CssStr "#4E66F6") :: LAYOUT_STYLE.

Definition styles : odict (odict css) :=
  [ ("domains", ("background", CssStr "#7A77B4") :: LAYOUT_STYLE);
    ("packages", ("background", CssStr "#B83BC0") :: LAYOUT_STYLE) ].

(** [styles.get(category, DEFAULT_STYLE)] *)
Definition styles_get (category : string) : odict css :=
  default DEFAULT_STYLE (od_get category styles).

(** ** Render nodes

    Modelled from the spec: the tree-node constructors [text], [image],
    [span], [div] and [grid] come from the module [unist], which is not
    part of the sources at hand; the spec treats them as external generic
    constructors of a node from its children and properties.  A call is
    represented by a constructor that records its arguments.  The nodes the
    program writes as dictionary literals ([card], [cardTitle], the
    checkbox [input] element, the rewritten [container]) and the nodes of
    the input document ([element]) have a constructor each. *)

Inductive node :=
| text (value : yaml)
| image (url : string)
| span (children : list node) (style : odict css)
| div (children : list node) (style : option (odict css)) (class : option (list string))
| cardTitle (children : list node)
| card (url : string) (class : list yaml) (children : list node)
| checkbox (rel : key)
| grid (columns : list Z) (children : list (option node))
| container (children : list node)
| element (type : string) (props : odict yaml) (children : list node).

(** ** Fetched metadata: the dictionary [fetch_cookbook_data] returns *)

Record cookbook := Cookbook {
  title : yaml;
  book_url : string;
  image_url : string;
  tags : yaml;
}.

(** ** Rendering one card *)

(** The inner clause of the [class] comprehension:
    [for item in items]. *)
Definition class_items (entry : string * yaml) : result (list yaml) :=
  py_iter entry.2.

(** The inner clauses of the label comprehension:
    [if items  for item in items], each item giving one styled [span]. *)
Definition label_spans (entry : string * yaml) : result (list node) :=
  if truthy entry.2
  then its <- py_iter entry.2;
       Return ((λ item, span [text item] (styles_get entry.1)) <$> its)
  else Return [].

(** The body of the [try] in [render_cookbook]. *)
Definition render_card (data : cookbook) : result node :=
  tag_items <- dict_items (tags data);
  class <- flat_mapM class_items tag_items;
  label_items <- dict_items (tags data);
  labels <- flat_mapM label_spans label_items;
  Return (card (book_url data)
               (YStr "tagged-card" :: class)
               [ cardTitle [text (title data)];
                 div [image (image_url data); div labels None None] None None ]).

Definition render_cookbook (name : string) (data : cookbook) : option node :=
  try_except (render_card data).

(** ** The main loop of [render_cookbooks] *)

Record state := State {
  cookbook_data : gmap string (option node);
  tag_lists : odict (gset key);
  category : option string;   (* the loop variable; unbound at first *)
}.

Definition initial_state : state :=
  {| cookbook_data := ∅;
     tag_lists := [("domains", ∅); ("packages", ∅)];
     category := None |}.

(** One round of [for category in tag_lists.keys()]. *)
Definition collect_category (data : cookbook)
    (acc : odict (gset key) * option string) (category : string)
    : result (odict (gset key) * option string) :=
  match od_get category acc.1 with
  | None => Raise KeyError
  | Some s =>
      v <- dict_get (tags data) category (YSeq []);
      s' <- set_update s v;
      Return (od_set category s' acc.1, Some category)
  end.

Definition collect_tags (data : cookbook)
    (acc : odict (gset key) * option string)
    : result (odict (gset key) * option string) :=
  foldM (collect_category data) acc (od_keys acc.1).

(** The body of [for name, data in zip(body, cookbook_entries)]. *)
Definition step (st : state) (entry : string * option cookbook) : result state :=
  match entry.2 with
  | None => Return st
  | Some data =>
      let rendered := render_cookbook entry.1 data in
      acc <- collect_tags data (tag_lists st, category st);
      Return {| cookbook_data := <[entry.1 := rendered]> (cookbook_data st);
                tag_lists := acc.1;
                category := acc.2 |}
  end.

(** [[cookbook_data[name] for name in body if name in cookbook_data]] *)
Definition cookbook_nodes (body : list string)
    (cookbook_data : gmap string (option node)) : list (option node) :=
  omap (λ name, cookbook_data !! name) body.

(** ** Filter controls *)

(** One checkbox row, styled for [category]. *)
Definition row_node (category : string) (tag : key) : node :=
  div [checkbox tag; text (YStr (" " +:+ key_str tag))]
      (Some (styles_get category)) None.

(** The row comprehension evaluates [styles.get(category, DEFAULT_STYLE)]
    once per tag; [category] is whatever the loop variable of the main
    loop holds by then, and a [NameError] if that loop never bound it. *)
Definition control_row (category : option string) (tag : key) : result node :=
  match category with
  | None => Raise NameError
  | Some c => Return (row_node c tag)
  end.

Definition controls_group (order : set_order) (st : state)
    (label : string) (group : string) : result node :=
  match od_get group (tag_lists st) with
  | None => Raise KeyError
  | Some s =>
      tags <- sorted (order s);
      rows <- for_each (control_row (category st)) tags;
      Return (div (span [text (YStr label)] [("fontWeight", CssStr "bold")] :: rows)
                  None (Some [group]))
  end.

(** [render_cookbooks], from the lines read from [cookbook_gallery.txt]
    and the list [pool.map] returned. *)
Definition render_cookbooks_from (order : set_order) (body : list string)
    (cookbook_entries : list (option cookbook))
    : result (node * list (option node)) :=
  st <- foldM step initial_state (zip body cookbook_entries);
  domains_controls <- controls_group order st "Filter by Domain:" "domains";
  packages_controls <- controls_group order st "Filter by Package:" "packages";
  let controls_node :=
    div [domains_controls; packages_controls] None (Some ["filter-controls"]) in
  Return (controls_node, cookbook_nodes body (cookbook_data st)).

(** The tags one record adds to one category:
    [data["tags"].get(category, [])], as the set [update] makes of it. *)
Definition tag_set (data : cookbook) (category : string) : result (gset key) :=
  v <- dict_get (tags data) category (YSeq []);
  set_update ∅ v.

(** Tag aggregation on its own: the inner loop of [render_cookbooks] run
    over a collection of fetched records. *)
Definition aggregate_from (acc : odict (gset key) * option string)
    (records : list cookbook) : result (odict (gset key) * option string) :=
  foldM (λ acc data, collect_tags data acc) acc records.

Definition aggregate (records : list cookbook) : result (odict (gset key)) :=
  acc <- aggregate_from (tag_lists initial_state, None) records;
  Return acc.1.

(** ** Fetching the metadata of one cookbook *)

Section Fetch.
(** [fetch_yaml url]: what the remote site answers during this run, once
    decoded, or the exception [urlopen], [decode] or [yaml.load] raise. *)
Variable fetch_yaml : string → result yaml.
(** How an f-string prints a decoded value. *)
Variable py_format : yaml → string.

(** The body of the [try] in [fetch_cookbook_data]. *)
Definition fetch_record (name : string) : result cookbook :=
  let raw_base_url :=
    "https://raw.githubusercontent.com/ProjectPythia-MystMD/" +:+ name +:+ "/main" in
  let config_url := raw_base_url +:+ "/myst.yml" in
  config <- fetch_yaml config_url;
  project <- subscript config "project";
  title <- subscript project "title";
  let gallery_url := raw_base_url +:+ "/_gallery_info.yml" in
  gallery_data <- fetch_yaml gallery_url;
  thumbnail <- subscript gallery_data "thumbnail";
  let image_url := raw_base_url +:+ "/" +:+ py_format thumbnail in
  tags <- dict_get gallery_data "tags" (YMap []);
  Return {| title := title;
            book_url := "https://projectpythia-mystmd.github.io/" +:+ name;
            image_url := image_url;
            tags := tags |}.

Definition fetch_cookbook_data (name : string) : option cookbook :=
  try_except (fetch_record name).
End Fetch.

(** ** The thread pool

    [pool.map(fn, xs)] of [concurrent.futures]: every call is submitted at
    once and gets a future of its own; the workers complete the futures in
    an order of their own, the [schedule]; the results are then read from
    the futures in the order of submission, each read waiting for its
    future.  A future that never completes blocks the read for ever:
    [results] is [None]. *)

Section Pool.
Context {A R : Type}.

Definition submit_all (xs : list A) : list (A * option R) :=
  (λ x, (x, None)) <$> xs.

(** The worker that runs call number [i] stores its result in future [i]. *)
Definition complete (fn : A → R) (futures : list (A * option R)) (i : nat)
    : list (A * option R) :=
  alter (λ f, (f.1, Some (fn f.1))) i futures.

Definition run_workers (fn : A → R) (schedule : list nat)
    (futures : list (A * option R)) : list (A * option R) :=
  foldl (complete fn) futures schedule.

Definition results (futures : list (A * option R)) : option (list R) :=
  mapM snd futures.

Definition pool_map (schedule : list nat) (fn : A → R) (xs : list A)
    : option (list R) :=
  results (run_workers fn schedule (submit_all xs)).
End Pool.

(** ** [render_cookbooks] and [run_transform] *)

(** What varies from one run of the interpreter to the next. *)
Record run := Run {
  schedule : list nat;     (* the order in which the fetches complete *)
  order : set_order;       (* the order in which sets are iterated *)
}.

Section Transform.
Variable fetch_yaml : string → result yaml.
Variable py_format : yaml → string.

(** [body] is the list of lines of [cookbook_gallery.txt].  The outer
    [option] is [None] when the call never returns. *)
Definition render_cookbooks (r : run) (body : list string)
    : option (result (node * list (option node))) :=
  cookbook_entries ←
    pool_map (schedule r) (fetch_cookbook_data fetch_yaml py_format) body;
  Some (render_cookbooks_from (order r) body cookbook_entries).

(** Modelled from the spec: [find_all_by_type] belongs to [unist] and is
    not part of the sources at hand.  The spec has the transform locate
    every node of the input tree whose type is the marker, clear it,
    change its type and install the fragment as its children. *)
Fixpoint rewrite_placeholders (fragment : list node) (n : node) : node :=
  match n with
  | element type props children =>
      if decide (type = "pythia-cookbooks")
      then container fragment
      else element type props (map (rewrite_placeholders fragment) children)
  | _ => n
  end.

Definition run_transform (r : run) (body : list string) (data : node)
    : option (result node) :=
  rendered ← render_cookbooks r body;
  Some (out <- rendered;
        let grid_node := grid [1; 1; 2; 3]%Z out.2 in
        Return (rewrite_placeholders [out.1; grid_node] data)).
End Transform.

(** ** Reading the rendered nodes *)

Definition card_class (n : node) : list yaml :=
  match n with
  | card _ class _ => class
  | _ => []
  end.

(** The tag labels of a card: the children of the inner [div]. *)
Definition card_labels (n : node) : list node :=
  match n with
  | card _ _ [_; div [_; div labels _ _] _ _] => labels
  | _ => []
  end.

(** The two groups inside the controls node. *)
Definition control_groups (controls : node) : list node :=
  match controls with
  | div groups _ _ => groups
  | _ => []
  end.

Definition group_class (group : node) : option (list string) :=
  match group with
  | div _ _ class => class
  | _ => None
  end.

(** The checkbox rows of a group: all its children but the bold label. *)
Definition group_rows (group : node) : list node :=
  match group with
  | div (_ :: rows) _ _ => rows
  | _ => []
  end.

Definition row_tag (row : node) : option key :=
  match row with
  | div (checkbox tag :: _) _ _ => Some tag
  | _ => None
  end.

Definition row_style (row : node) : option (odict css) :=
  match row with
  | div _ style _ => style
  | _ => None
  end.

(** Strings in ascending order without repetition; [None] is comparable
    with nothing. *)
Definition key_lt (a b : key) : Prop :=
  match a, b with
  | KStr x, KStr y => String.le x y ∧ x ≠ y
  | _, _ => False
  end.

(** The shape [tag_lists] has throughout a run. *)
Definition two_sets (d p : gset key) : odict (gset key) :=
  [("domains", d); ("packages", p)].

(** What a record adds to a category when its tags can be collected. *)
Definition tags_of (category : string) (data : cookbook) : gset key :=
  match tag_set data category with
  | Return s => s
  | Raise _ => ∅
  end.

Definition is_Return {A} (m : result A) : Prop := ∃ a, m = Return a.

(** The tags of both known categories can be collected. *)
Definition collectable (data : cookbook) : Prop :=
  is_Return (tag_set data "domains") ∧ is_Return (tag_set data "packages").

(** The value of the loop variable [category] after the records [l]. *)
Definition last_category {A} (c : option string) (l : list A) : option string :=
  match l with
  | [] => c
  | _ => Some "packages"
  end.

(** The entries whose fetch returned data, with their names. *)
Definition fetched (body : list string) (cookbook_entries : list (option cookbook))
    : list (string * cookbook) :=
  omap (λ e, pair e.1 <$> e.2) (zip body cookbook_entries).

(** [cookbook_data] after the loop has stored the cards of [l]. *)
Definition store_cards (cd : gmap string (option node))
    (l : list (string * cookbook)) : gmap string (option node) :=
  foldl (λ cd e, <[e.1 := render_cookbook e.1 e.2]> cd) cd l.

(** The strings of a list of set elements. *)
Definition strs_of (l : list key) : list string :=
  omap (λ k, match k with KStr s => Some s | KNone => None end) l.

(** The controls node, given the sorted tags of both groups and the
    category the rows are styled for. *)
Definition controls_of (c : string) (dtags ptags : list key) : node :=
  div [ div (span [text (YStr "Filter by Domain:")] [("fontWeight", CssStr "bold")]
               :: (row_node c <$> dtags)) None (Some ["domains"]);
        div (span [text (YStr "Filter by Package:")] [("fontWeight", CssStr "bold")]
               :: (row_node c <$> ptags)) None (Some ["packages"]) ]
      None (Some ["filter-controls"]).

(** ** The directive

    [run_directive] checks its name with an [assert] and returns one
    placeholder node; [None] stands for the [AssertionError]. *)
Definition run_directive (name : string) (data : node) : option (list node) :=
  if decide (name = "pythia-cookbooks")
  then Some [element "pythia-cookbooks" [] []]
  else None.

(** A node of the marker type somewhere in a document. *)
Fixpoint has_placeholder (n : node) : bool :=
  match n with
  | element type _ children =>
      bool_decide (type = "pythia-cookbooks") || existsb has_placeholder children
  | _ => false
  end.

(** The (category, item) pairs of a tags mapping, in the order the two
    comprehensions of [render_cookbook] go through them. *)
Definition entry_pairs (entry : string * yaml) : list (string * yaml) :=
  match py_iter entry.2 with
  | Return items => pair entry.1 <$> items
  | Raise _ => []
  end.

Definition tag_pairs (d : odict yaml) : list (string * yaml) :=
  concat (entry_pairs <$> d).

(** The label [render_cookbook] makes of one pair. *)
Definition label_of (p : string * yaml) : node :=
  span [text p.2] (styles_get p.1).

(** A value [set.update] accepts: it can be iterated and its items hashed. *)
Definition updatable (v : yaml) : Prop :=
  ∃ items, py_iter v = Return items ∧ Forall (λ x, is_Return (hashable x)) items.

(** A record whose tags the loop can collect: a mapping whose values for
    the two known categories, where it has them, are updatable. *)
Definition well_tagged (data : cookbook) : Prop :=
  ∃ d, tags data = YMap d ∧
       updatable (default (YSeq []) (od_get "domains" d)) ∧
       updatable (default (YSeq []) (od_get "packages" d)).

(** A set [sorted] accepts: [None] is not compared with anything. *)
Definition sortable (s : gset key) : Prop := size s ≤ 1 ∨ KNone ∉ s.

(** The record stored last under [name] by the loop. *)
Fixpoint last_fetched (name : string) (l : list (string * cookbook))
    : option cookbook :=
  match l with
  | [] => None
  | e :: l' =>
      match last_fetched name l' with
      | Some data => Some data
      | None => if decide (e.1 = name) then Some e.2 else None
      end
  end.

(** The values a [for] loop can go through: strings, sequences and
    mappings. *)
Definition iterable (v : yaml) : Prop :=
  match v with
  | YStr _ | YSeq _ | YMap _ => True
  | YNull => False
  end.

(** A record whose tags are a mapping that gives a list of strings for
    each of the two known categories it has. *)
Definition string_tagged (data : cookbook) : Prop :=
  ∃ d, tags data = YMap d ∧
       ∀ cat v, cat ∈ ["domains"; "packages"] → od_get cat d = Some v →
                ∃ l : list string, v = YSeq (YStr <$> l).

(** The identifiers whose fetch returned a record, with their entries. *)
Definition successful (body : list string) (cookbook_entries : list (option cookbook))
    : list (string * option cookbook) :=
  filter (λ e, is_Some e.2) (zip body cookbook_entries).

(** ** Sample data *)

Definition canonical_order : set_order :=
  SetOrder elements (λ _, reflexivity _).

Definition reversed_order : set_order :=
  SetOrder (λ s, reverse (elements s)) (λ s, reverse_Permutation (elements s)).

(** Two well-formed records with unsorted, repeated and shared tags. *)
Definition radar : cookbook :=
  {| title := YStr "Radar Cookbook";
     book_url := "https://projectpythia-mystmd.github.io/radar-cookbook";
     image_url := "https://raw.githubusercontent.com/ProjectPythia-MystMD/radar-cookbook/main/thumbnail.png";
     tags := YMap [("domains", YSeq [YStr "radar"; YStr "atmosphere"; YStr "radar"]);
                   ("packages", YSeq [YStr "xarray"; YStr "pyart"])] |}.

Definition ocean : cookbook :=
  {| title := YStr "Ocean Cookbook";
     book_url := "https://projectpythia-mystmd.github.io/ocean-cookbook";
     image_url := "https://raw.githubusercontent.com/ProjectPythia-MystMD/ocean-cookbook/main/thumbnail.png";
     tags := YMap [("packages", YSeq [YStr "xarray"; YStr "dask"]);
                   ("domains", YSeq [YStr "ocean"])] |}.

(** A record whose card cannot be rendered: the document has
    [formats:] with nothing after it, which decodes to null. *)
Definition broken : cookbook :=
  {| title := YStr "Broken Cookbook";
     book_url := "https://projectpythia-mystmd.github.io/broken-cookbook";
     image_url := "https://raw.githubusercontent.com/ProjectPythia-MystMD/broken-cookbook/main/thumbnail.png";
     tags := YMap [("domains", YSeq [YStr "climate"]); ("formats", YNull)] |}.

(** A remote site with two cookbooks, the second without a [tags] field
    in its gallery document; every other address is unreachable. *)
Definition sample_site (url : string) : result yaml :=
  if decide (url = "https://raw.githubusercontent.com/ProjectPythia-MystMD/radar-cookbook/main/myst.yml")
  then Return (YMap [("project", YMap [("title", YStr "Radar Cookbook")])])
  else if decide (url = "https://raw.githubusercontent.com/ProjectPythia-MystMD/radar-cookbook/main/_gallery_info.yml")
  then Return (YMap [("thumbnail", YStr "thumbnail.png");
                     ("tags", YMap [("domains", YSeq [YStr "radar"; YStr "atmosphere"; YStr "radar"]);
                                    ("packages", YSeq [YStr "xarray"; YStr "pyart"])])])
  else if decide (url = "https://raw.githubusercontent.com/ProjectPythia-MystMD/plain-cookbook/main/myst.yml")
  then Return (YMap [("project", YMap [("title", YStr "Plain Cookbook")])])
  else if decide (url = "https://raw.githubusercontent.com/ProjectPythia-MystMD/plain-cookbook/main/_gallery_info.yml")
  then Return (YMap [("thumbnail", YStr "thumbnail.png")])
  else Raise URLError.

(** Printing a string in an f-string gives the string; the samples print
    nothing else. *)
Definition sample_format (v : yaml) : string :=
  match v with
  | YStr s => s
  | _ => "None"
  end.

(** A document with two placeholders. *)
Definition sample_document : node :=
  element "root" []
    [ element "heading" [("value", YStr "Cookbooks")] [];
      element "pythia-cookbooks" [] [];
      element "block" [] [element "pythia-cookbooks" [] [text (YStr "old")]] ].

(** A record whose gallery document has [domains:] with nothing after
    it. *)
Definition hollow : cookbook :=
  {| title := YStr "Hollow Cookbook";
     book_url := "https://projectpythia-mystmd.github.io/hollow-cookbook";
     image_url := "https://raw.githubusercontent.com/ProjectPythia-MystMD/hollow-cookbook/main/thumbnail.png";
     tags := YMap [("domains", YNull); ("packages", YSeq [YStr "numpy"])] |}.

(** A record whose gallery document gives the domain as a plain string
    instead of a list. *)
Definition terse : cookbook :=
  {| title := YStr "Terse Cookbook";
     book_url := "https://projectpythia-mystmd.github.io/terse-cookbook";
     image_url := "https://raw.githubusercontent.com/ProjectPythia-MystMD/terse-cookbook/main/thumbnail.png";
     tags := YMap [("domains", YStr "né")] |}.

(** A document without placeholder. *)
Definition plain_document : node :=
  element "root" []
    [ element "heading" [("value", YStr "Cookbooks")] [];
      element "block" [] [element "paragraph" [] []] ].

(** * Properties *)

(** ** The exception monad *)

Lemma bind_Return {A B} (m : result A) (k : A → result B) (b : B) :
  bind m k = Return b ↔ ∃ a, m = Return a ∧ k a = Return b.
Proof.
  destruct m as [a|e]; simpl.
  - split; [by exists a | by intros (a' & [= ->] & ?)].
  - split; [done | by intros (a' & ? & ?)].
Qed.

Lemma try_except_Some {A} (m : result A) (a : A) :
  try_except m = Some a ↔ m = Return a.
Proof. destruct m; simpl; split; congruence. Qed.

Lemma try_except_None {A} (m : result A) :
  try_except m = None ↔ ∃ e, m = Raise e.
Proof.
  destruct m; simpl; split; try done.
  - by intros [? ?].
  - eauto.
Qed.

Ltac inv_bind H :=
  let a := fresh "a" in
  let H1 := fresh H in
  apply bind_Return in H as (a & H1 & H).

Lemma flat_mapM_Return {A B} (f : A → result (list B)) l ys :
  flat_mapM f l = Return ys ↔
  ∃ yss, Forall2 (λ x ys, f x = Return ys) l yss ∧ ys = concat yss.
Proof.
  revert ys. induction l as [|x l IH]; intros ys; simpl.
  - split.
    + intros [= <-]. exists []. by split; [constructor|].
    + intros (yss & Hall & ->). by inversion Hall.
  - rewrite bind_Return. split.
    + intros (y & Hx & H). apply bind_Return in H as (zs & Hl & [= <-]).
      apply IH in Hl as (yss & Hall & ->).
      exists (y :: yss). by split; [constructor|].
    + intros (yss & Hall & ->). inversion Hall as [|? y ? yss' Hx Hl]; subst.
      exists y. split; [done|]. apply bind_Return.
      exists (concat yss'). split; [|done]. apply IH. eauto.
Qed.

Lemma for_each_Return {A B} (f : A → result B) l ys :
  for_each f l = Return ys ↔ Forall2 (λ x y, f x = Return y) l ys.
Proof.
  revert ys. induction l as [|x l IH]; intros ys; simpl.
  - split; [intros [= <-]; constructor | by inversion 1].
  - rewrite bind_Return. split.
    + intros (y & Hx & H). apply bind_Return in H as (zs & Hl & [= <-]).
      constructor; [done|]. by apply IH.
    + inversion 1 as [|? y ? ys' Hx Hl]; subst.
      exists y. split; [done|]. apply bind_Return.
      exists ys'. split; [by apply IH | done].
Qed.

(** ** Cards *)

Lemma render_card_Return data c :
  render_card data = Return c ↔
  ∃ d class labels,
    tags data = YMap d ∧
    flat_mapM class_items d = Return class ∧
    flat_mapM label_spans d = Return labels ∧
    c = card (book_url data) (YStr "tagged-card" :: class)
          [ cardTitle [text (title data)];
            div [image (image_url data); div labels None None] None None ].
Proof.
  unfold render_card. split.
  - intros H. inv_bind H. inv_bind H. inv_bind H. inv_bind H.
    injection H as <-.
    destruct (tags data) as [| |l|d]; try discriminate.
    injection H0 as <-. injection H2 as <-. eauto 10.
  - intros (d & class & labels & -> & Hc & Hl & ->). simpl.
    rewrite Hc. simpl. by rewrite Hl.
Qed.

(** C8, as the code has it: the class list of every card that was
    rendered is the marker class ["tagged-card"] followed by the items of
    every category of the record's tags, category after category in the
    order of the mapping, the items of one category in the order its
    sequence is iterated, repetitions kept. *)
Theorem card_class_marker_then_tags name data c :
  render_cookbook name data = Some c →
  ∃ d seqs,
    tags data = YMap d ∧
    Forall2 (λ entry items, py_iter entry.2 = Return items) d seqs ∧
    card_class c = YStr "tagged-card" :: concat seqs.
Proof.
  intros H. apply try_except_Some, render_card_Return in H
    as (d & class & labels & Ht & Hc & _ & ->).
  apply flat_mapM_Return in Hc as (seqs & Hall & ->).
  by exists d, seqs.
Qed.

Lemma card_class_marker_then_tags_witness :
  ∃ d seqs,
    tags radar = YMap d ∧
    Forall2 (λ entry items, py_iter entry.2 = Return items) d seqs ∧
    card_class
      (card (book_url radar)
         [YStr "tagged-card"; YStr "radar"; YStr "atmosphere"; YStr "radar";
          YStr "xarray"; YStr "pyart"]
         [ cardTitle [text (title radar)];
           div [image (image_url radar);
                div [span [text (YStr "radar")] (styles_get "domains");
                     span [text (YStr "atmosphere")] (styles_get "domains");
                     span [text (YStr "radar")] (styles_get "domains");
                     span [text (YStr "xarray")] (styles_get "packages");
                     span [text (YStr "pyart")] (styles_get "packages")]
                    None None] None None ])
    = YStr "tagged-card" :: concat seqs.
Proof.
  apply (card_class_marker_then_tags "radar-cookbook" radar). reflexivity.
Defined.

(** C8, with the marker spelt ["tagged"]: the first class of a rendered
    card is ["tagged-card"], which is another string. *)
Lemma card_class_head_not_tagged :
  ∃ c, render_cookbook "radar-cookbook" radar = Some c ∧
       head (card_class c) = Some (YStr "tagged-card") ∧
       head (card_class c) ≠ Some (YStr "tagged").
Proof. eexists. split; [reflexivity|]. split; [reflexivity|]. discriminate. Qed.

(** ** Collecting tags *)

Lemma bind_assoc {A B C} (m : result A) (k : A → result B) (h : B → result C) :
  bind (bind m k) h = bind m (λ a, bind (k a) h).
Proof. by destruct m. Qed.

Lemma set_update_union s v :
  set_update s v = bind (set_update ∅ v) (λ t, Return (s ∪ t)).
Proof.
  unfold set_update. destruct (py_iter v) as [items|]; simpl; [|done].
  destruct (for_each hashable items) as [ks|]; simpl; [|done].
  by rewrite (left_id_L ∅ (∪)).
Qed.

Lemma collect_category_two_sets_domains data d p c :
  collect_category data (two_sets d p, c) "domains" =
  bind (tag_set data "domains") (λ t, Return (two_sets (d ∪ t) p, Some "domains")).
Proof.
  unfold collect_category, tag_set. simpl.
  destruct (dict_get (tags data) "domains" (YSeq [])) as [v|]; simpl; [|done].
  rewrite set_update_union. by destruct (set_update ∅ v).
Qed.

Lemma collect_category_two_sets_packages data d p c :
  collect_category data (two_sets d p, c) "packages" =
  bind (tag_set data "packages") (λ t, Return (two_sets d (p ∪ t), Some "packages")).
Proof.
  unfold collect_category, tag_set. simpl.
  destruct (dict_get (tags data) "packages" (YSeq [])) as [v|]; simpl; [|done].
  rewrite set_update_union. by destruct (set_update ∅ v).
Qed.

Lemma collect_tags_two_sets data d p c :
  collect_tags data (two_sets d p, c) =
  bind (tag_set data "domains") (λ t,
    bind (tag_set data "packages") (λ u,
      Return (two_sets (d ∪ t) (p ∪ u), Some "packages"))).
Proof.
  unfold collect_tags. simpl od_keys. cbn [fmap list_fmap fst two_sets foldM].
  change [("domains", d); ("packages", p)] with (two_sets d p).
  rewrite collect_category_two_sets_domains.
  destruct (tag_set data "domains") as [t|]; simpl; [|done].
  change [("domains", d ∪ t); ("packages", p)] with (two_sets (d ∪ t) p).
  rewrite collect_category_two_sets_packages.
  by destruct (tag_set data "packages").
Qed.

Lemma collect_tags_Return data d p c acc :
  collect_tags data (two_sets d p, c) = Return acc ↔
  collectable data ∧
  acc = (two_sets (d ∪ tags_of "domains" data) (p ∪ tags_of "packages" data),
         Some "packages").
Proof.
  rewrite collect_tags_two_sets. unfold collectable, tags_of, is_Return.
  destruct (tag_set data "domains") as [t|e]; simpl.
  - destruct (tag_set data "packages") as [u|e]; simpl.
    + split; [intros [= <-]; eauto | by intros [_ ->]].
    + split; [done | by intros [[_ [? ?]] _]].
  - split; [done | by intros [[[? ?] _] _]].
Qed.

Lemma aggregate_from_Return l d p c acc :
  aggregate_from (two_sets d p, c) l = Return acc ↔
  Forall collectable l ∧
  acc = (two_sets (d ∪ ⋃ (tags_of "domains" <$> l))
                  (p ∪ ⋃ (tags_of "packages" <$> l)),
         last_category c l).
Proof.
  revert d p c. induction l as [|r l IH]; intros d p c.
  - simpl. rewrite !(right_id_L ∅ (∪)).
    split; [intros [= <-]; by split | by intros [_ ->]].
  - unfold aggregate_from. cbn [foldM]. rewrite bind_Return. split.
    + intros (acc' & Hr & Hl). apply collect_tags_Return in Hr as [Hr ->].
      apply IH in Hl as [Hl ->]. split; [by constructor|].
      cbn [fmap list_fmap union_list foldr].
      rewrite !(assoc_L (∪)). by destruct l.
    + intros [Hall ->]. inversion Hall as [|?? Hr Hl]; subst.
      eexists. split; [by apply collect_tags_Return|].
      apply IH. split; [done|].
      cbn [fmap list_fmap union_list foldr].
      rewrite !(assoc_L (∪)). by destruct l.
Qed.

(** ** The main loop *)

Lemma foldM_step_fetched st body cookbook_entries :
  foldM step st (zip body cookbook_entries) =
  foldM step st ((λ e, (e.1, Some e.2)) <$> fetched body cookbook_entries).
Proof.
  unfold fetched. revert st.
  induction (zip body cookbook_entries) as [|[name [data|]] l IH]; intros st.
  - done.
  - cbn [omap list_omap fmap list_fmap option_fmap option_map foldM fst snd].
    destruct (step st (name, Some data)); simpl; [apply IH | done].
  - cbn [omap list_omap fmap list_fmap option_fmap option_map foldM fst snd].
    unfold step at 1. simpl. apply IH.
Qed.

(** The loop splits into two independent computations: the cards stored
    under the names, and the tags collected from the records.  Neither
    looks at the other. *)
Lemma foldM_step_split st (l : list (string * cookbook)) :
  foldM step st ((λ e, (e.1, Some e.2)) <$> l) =
  bind (aggregate_from (tag_lists st, category st) l.*2) (λ acc,
    Return {| cookbook_data := store_cards (cookbook_data st) l;
              tag_lists := acc.1;
              category := acc.2 |}).
Proof.
  revert st. induction l as [|[name data] l IH]; intros st.
  - by destruct st.
  - cbn [fmap list_fmap foldM fst snd]. unfold aggregate_from. cbn [foldM].
    unfold step at 1. cbn [fst snd]. rewrite !bind_assoc.
    destruct (collect_tags data (tag_lists st, category st)) as [[tl c]|]; simpl; [|done].
    by rewrite IH.
Qed.

(** ** Sorting *)

Lemma for_each_as_str l :
  for_each as_str l =
  if decide (KNone ∈ l) then Raise TypeError else Return (strs_of l).
Proof.
  induction l as [|[|s] l IH]; cbn [for_each as_str bind].
  - destruct (decide (KNone ∈ [])) as [Hin|]; [by apply elem_of_nil in Hin | done].
  - destruct (decide (KNone ∈ KNone :: l)) as [|Hin]; [done | destruct Hin; by left].
  - rewrite IH.
    destruct (decide (KNone ∈ l)) as [Hin|Hin],
             (decide (KNone ∈ KStr s :: l)) as [Hin'|Hin']; try done.
    + destruct Hin'. by right.
    + apply elem_of_cons in Hin' as [?|?]; done.
Qed.

Lemma strs_of_fmap l : KNone ∉ l → KStr <$> strs_of l = l.
Proof.
  induction l as [|[|s] l IH]; intros Hin; simpl; [done| |].
  - destruct Hin. by left.
  - f_equal. apply IH. intros ?. apply Hin. by right.
Qed.

Lemma sorted_Permutation l l' : sorted l = Return l' → l' ≡ₚ l.
Proof.
  destruct l as [|k [|k' l]]; simpl; try by intros [= <-].
  destruct k as [|s]; simpl; [done|].
  destruct k' as [|s']; simpl; [done|].
  rewrite for_each_as_str.
  destruct (decide (KNone ∈ l)); simpl; [done|]. intros [= <-].
  rewrite merge_sort_Permutation. simpl. by rewrite strs_of_fmap.
Qed.

Lemma sorted_perm l1 l2 : l1 ≡ₚ l2 → sorted l1 = sorted l2.
Proof.
  intros Hperm.
  assert (length l1 = length l2) as Hlen by by rewrite Hperm.
  destruct l1 as [|k1 [|k1' l1]].
  - by apply Permutation_nil_l in Hperm as <-.
  - by apply Permutation_singleton_l in Hperm as <-.
  - destruct l2 as [|k2 [|k2' l2]]; try done.
    unfold sorted. rewrite !for_each_as_str.
    destruct (decide (KNone ∈ k1 :: k1' :: l1)) as [Hin|Hin].
    + rewrite decide_True; [done | by rewrite <-Hperm].
    + rewrite decide_False; [|by rewrite <-Hperm].
      cbn [bind]. do 2 f_equal.
      apply (Sorted_unique String.le).
      * apply Sorted_merge_sort, _.
      * apply Sorted_merge_sort, _.
      * rewrite !merge_sort_Permutation. unfold strs_of. by rewrite Hperm.
Qed.

Lemma key_lt_of_le l :
  NoDup l → StronglySorted String.le l → StronglySorted key_lt (KStr <$> l).
Proof.
  induction 2 as [|s l Hl IH Hall]; simpl; [constructor|].
  apply NoDup_cons in H as [Hs Hnd].
  constructor; [by apply IH|].
  apply Forall_fmap, Forall_forall. intros s' Hin. split.
  - by eapply Forall_forall in Hall.
  - by intros ->.
Qed.

Lemma sorted_StronglySorted l l' :
  NoDup l → sorted l = Return l' → StronglySorted key_lt l'.
Proof.
  intros Hnd Hs.
  destruct l as [|k [|k' l]].
  - injection Hs as <-. constructor.
  - injection Hs as <-. by repeat constructor.
  - unfold sorted in Hs. rewrite for_each_as_str in Hs.
    destruct (decide (KNone ∈ k :: k' :: l)) as [Hin|Hin]; [done|].
    assert (l' = KStr <$> merge_sort String.le (strs_of (k :: k' :: l))) as ->
      by (cbn [bind] in Hs; congruence).
    apply key_lt_of_le.
    + rewrite merge_sort_Permutation.
      apply (NoDup_fmap_1 KStr). by rewrite strs_of_fmap.
    + apply StronglySorted_merge_sort; apply _.
Qed.

Lemma sorted_NoDup l l' : NoDup l → sorted l = Return l' → NoDup l'.
Proof. intros Hnd Hs. by rewrite (sorted_Permutation _ _ Hs). Qed.

Lemma sorted_elem_of l l' k : sorted l = Return l' → k ∈ l' ↔ k ∈ l.
Proof. intros Hs. by rewrite (sorted_Permutation _ _ Hs). Qed.

(** ** The controls *)

Lemma for_each_pure {A B} (f : A → B) (l : list A) :
  for_each (λ x, Return (f x)) l = Return (f <$> l).
Proof. induction l as [|x l IH]; simpl; [done | by rewrite IH]. Qed.

Lemma order_empty (order : set_order) : order ∅ = [].
Proof. apply Permutation_nil_r. by rewrite enum_perm, elements_empty. Qed.

(** Whatever the loop variable holds, the rows come out styled for
    ["packages"]: either some record was collected, and the inner loop
    left [category] at its last key, or none was, and there is no row. *)
Lemma for_each_control_row (order : set_order) (l : list cookbook) cat c tags :
  sorted (order (⋃ (tags_of cat <$> l))) = Return tags →
  for_each (control_row (last_category c l)) tags =
  Return (row_node "packages" <$> tags).
Proof.
  destruct l as [|r l]; simpl.
  - rewrite order_empty. by intros [= <-].
  - intros _. apply for_each_pure.
Qed.

Lemma controls_group_two_sets (order : set_order) cd d p c label group s :
  od_get group (two_sets d p) = Some s →
  controls_group order (State cd (two_sets d p) c) label group =
  bind (sorted (order s)) (λ tags,
    bind (for_each (control_row c) tags) (λ rows,
      Return (div (span [text (YStr label)] [("fontWeight", CssStr "bold")] :: rows)
                None (Some [group])))).
Proof. unfold controls_group. cbn [tag_lists category]. by intros ->. Qed.

(** [render_cookbooks] in one equation: collect the tags of the fetched
    records, sort both sets, build the rows, and list the stored cards. *)
Lemma render_cookbooks_from_eq (order : set_order) body cookbook_entries :
  render_cookbooks_from order body cookbook_entries =
  bind (aggregate (fetched body cookbook_entries).*2) (λ _,
    bind (sorted (order (⋃ (tags_of "domains" <$> (fetched body cookbook_entries).*2)))) (λ dtags,
      bind (sorted (order (⋃ (tags_of "packages" <$> (fetched body cookbook_entries).*2)))) (λ ptags,
        Return (controls_of "packages" dtags ptags,
                cookbook_nodes body (store_cards ∅ (fetched body cookbook_entries)))))).
Proof.
  unfold render_cookbooks_from, aggregate.
  rewrite foldM_step_fetched, foldM_step_split, !bind_assoc.
  cbn [initial_state tag_lists category cookbook_data].
  change [("domains", ∅); ("packages", ∅)] with (two_sets (∅ : gset key) ∅).
  set (l := fetched body cookbook_entries).
  destruct (aggregate_from (two_sets ∅ ∅, None) l.*2) as [acc|e] eqn:Hacc; [|done].
  apply aggregate_from_Return in Hacc as [_ ->].
  rewrite !(left_id_L ∅ (∪)). cbn [bind fst snd].
  rewrite (controls_group_two_sets _ _ _ _ _ _ _ (⋃ (tags_of "domains" <$> l.*2)))
    by done.
  rewrite (controls_group_two_sets _ _ _ _ _ _ _ (⋃ (tags_of "packages" <$> l.*2)))
    by done.
  destruct (sorted (order (⋃ (tags_of "domains" <$> l.*2)))) as [dtags|] eqn:Hd;
    [|done].
  cbn [bind]. rewrite (for_each_control_row _ _ _ _ _ Hd). cbn [bind].
  destruct (sorted (order (⋃ (tags_of "packages" <$> l.*2)))) as [ptags|] eqn:Hp;
    [|done].
  cbn [bind]. by rewrite (for_each_control_row _ _ _ _ _ Hp).
Qed.

Lemma render_cookbooks_from_inv (order : set_order) body cookbook_entries controls cards :
  render_cookbooks_from order body cookbook_entries = Return (controls, cards) →
  ∃ dtags ptags,
    Forall collectable (fetched body cookbook_entries).*2 ∧
    sorted (order (⋃ (tags_of "domains" <$> (fetched body cookbook_entries).*2)))
      = Return dtags ∧
    sorted (order (⋃ (tags_of "packages" <$> (fetched body cookbook_entries).*2)))
      = Return ptags ∧
    controls = controls_of "packages" dtags ptags ∧
    cards = cookbook_nodes body (store_cards ∅ (fetched body cookbook_entries)).
Proof.
  rewrite render_cookbooks_from_eq. intros H.
  apply bind_Return in H as (tl & Hagg & H).
  apply bind_Return in H as (dtags & Hd & H).
  apply bind_Return in H as (ptags & Hp & [= <- <-]).
  exists dtags, ptags. split_and!; try done.
  unfold aggregate in Hagg. apply bind_Return in Hagg as (acc & Hagg & _).
  change (tag_lists initial_state) with (two_sets (∅ : gset key) ∅) in Hagg.
  by apply aggregate_from_Return in Hagg as [? _].
Qed.

Lemma control_groups_controls_of c dtags ptags group :
  group ∈ control_groups (controls_of c dtags ptags) →
  ∃ label cat tags,
    (cat = "domains" ∧ tags = dtags ∨ cat = "packages" ∧ tags = ptags) ∧
    group = div (span [text (YStr label)] [("fontWeight", CssStr "bold")]
                   :: (row_node c <$> tags)) None (Some [cat]).
Proof.
  unfold controls_of, control_groups. rewrite !elem_of_cons, elem_of_nil.
  intros [->|[->|[]]]; eauto 10.
Qed.

(** Every row of either group is styled for ["packages"]. *)
Lemma control_rows_styled_for_packages (order : set_order) body cookbook_entries
    controls cards group row :
  render_cookbooks_from order body cookbook_entries = Return (controls, cards) →
  group ∈ control_groups controls →
  row ∈ group_rows group →
  row_style row = Some (styles_get "packages").
Proof.
  intros H Hg Hr.
  apply render_cookbooks_from_inv in H as (dtags & ptags & _ & _ & _ & -> & _).
  apply control_groups_controls_of in Hg as (label & cat & tags & _ & ->).
  cbn [group_rows] in Hr. by apply list_elem_of_fmap in Hr as (tag & -> & _).
Qed.

(** C2 at a failing input: one cookbook with two domain tags.  The rows of
    the domains group carry the style of ["packages"], which is not the
    style of ["domains"] that the labels of the card carry. *)
Theorem domains_rows_carry_packages_style :
  ∃ controls cards group card,
    render_cookbooks_from canonical_order ["radar-cookbook"] [Some radar]
      = Return (controls, cards) ∧
    control_groups controls !! 0 = Some group ∧
    group_class group = Some ["domains"] ∧
    row_style <$> group_rows group
      = [Some (styles_get "packages"); Some (styles_get "packages")] ∧
    styles_get "packages" ≠ styles_get "domains" ∧
    cards = [Some card] ∧
    card_labels card !! 0 = Some (span [text (YStr "radar")] (styles_get "domains")).
Proof.
  do 4 eexists. split; [vm_compute; reflexivity|].
  split; [reflexivity|]. split; [reflexivity|]. split; [reflexivity|].
  split; [discriminate|]. split; reflexivity.
Qed.

(** ** Cards whose rendering fails *)

(** C1 at a failing input: the card of the second cookbook cannot be
    rendered; its place in the card sequence is taken by [None], which
    goes into the grid with the cards. *)
Theorem failed_card_stays_in_sequence :
  ∃ controls card,
    render_cookbook "radar-cookbook" radar = Some card ∧
    render_cookbook "broken-cookbook" broken = None ∧
    render_cookbooks_from canonical_order
      ["radar-cookbook"; "broken-cookbook"] [Some radar; Some broken]
      = Return (controls, [Some card; None]).
Proof.
  do 2 eexists. split; [reflexivity|]. split; [reflexivity|].
  vm_compute. reflexivity.
Qed.

(** ** Tags reach the controls *)

Lemma elem_of_fetched body cookbook_entries name data :
  (name, Some data) ∈ zip body cookbook_entries →
  (name, data) ∈ fetched body cookbook_entries.
Proof.
  intros Hin. unfold fetched. apply list_elem_of_omap.
  by exists (name, Some data).
Qed.

Lemma loop_final_state body cookbook_entries (l := fetched body cookbook_entries) :
  Forall collectable l.*2 →
  foldM step initial_state (zip body cookbook_entries) =
  Return {| cookbook_data := store_cards ∅ l;
            tag_lists := two_sets (⋃ (tags_of "domains" <$> l.*2))
                                  (⋃ (tags_of "packages" <$> l.*2));
            category := last_category None l.*2 |}.
Proof.
  intros Hall. rewrite foldM_step_fetched, foldM_step_split.
  cbn [initial_state tag_lists category cookbook_data].
  change [("domains", ∅); ("packages", ∅)] with (two_sets (∅ : gset key) ∅).
  fold l.
  rewrite (proj2 (aggregate_from_Return l.*2 ∅ ∅ None _) (conj Hall eq_refl)).
  cbn [bind fst snd]. by rewrite !(left_id_L ∅ (∪)).
Qed.

(** C10: when a run completes, every tag of a known category of every
    record that was fetched is in the tag index after the loop and has a
    row in the group of its category, whether or not the card of that
    record could be rendered. *)
Theorem tags_collected_whatever_the_card (order : set_order) body cookbook_entries
    controls cards name data cat s tag :
  render_cookbooks_from order body cookbook_entries = Return (controls, cards) →
  (name, Some data) ∈ zip body cookbook_entries →
  cat ∈ ["domains"; "packages"] →
  tag_set data cat = Return s →
  tag ∈ s →
  (∃ st index,
     foldM step initial_state (zip body cookbook_entries) = Return st ∧
     od_get cat (tag_lists st) = Some index ∧ tag ∈ index) ∧
  (∃ group row,
     group ∈ control_groups controls ∧ group_class group = Some [cat] ∧
     row ∈ group_rows group ∧ row_tag row = Some tag).
Proof.
  intros H Hin Hcat Hs Htag.
  apply render_cookbooks_from_inv in H as (dtags & ptags & Hall & Hd & Hp & -> & _).
  apply elem_of_fetched in Hin.
  assert (tag ∈ ⋃ (tags_of cat <$> (fetched body cookbook_entries).*2)) as Hu.
  { apply elem_of_union_list. exists s. split; [|done].
    apply list_elem_of_fmap. exists data. split.
    - unfold tags_of. by rewrite Hs.
    - apply list_elem_of_fmap. by exists (name, data). }
  split.
  - eexists _, _. split; [by apply loop_final_state|]. cbn [tag_lists].
    apply elem_of_cons in Hcat as [->|Hcat]; [by split|].
    apply elem_of_cons in Hcat as [->|Hcat]; [by split|].
    by apply elem_of_nil in Hcat.
  - assert (∀ tags, sorted (order (⋃ (tags_of cat <$> (fetched body cookbook_entries).*2)))
                    = Return tags → tag ∈ tags) as Hrow.
    { intros tags Hsorted. apply (sorted_elem_of _ _ _ Hsorted).
      rewrite enum_perm. by apply elem_of_elements. }
    apply elem_of_cons in Hcat as [->|Hcat].
    + eexists _, (row_node "packages" tag). split; [by left|]. split; [done|].
      split; [|done]. cbn [group_rows]. apply list_elem_of_fmap. eauto.
    + apply elem_of_cons in Hcat as [->|Hcat]; [|by apply elem_of_nil in Hcat].
      eexists _, (row_node "packages" tag).
      split; [right; by left|]. split; [done|].
      split; [|done]. cbn [group_rows]. apply list_elem_of_fmap. eauto.
Qed.

Lemma tags_collected_whatever_the_card_witness :
  render_cookbook "broken-cookbook" broken = None ∧
  (∃ st index,
     foldM step initial_state
       (zip ["radar-cookbook"; "broken-cookbook"] [Some radar; Some broken])
       = Return st ∧
     od_get "domains" (tag_lists st) = Some index ∧ KStr "climate" ∈ index) ∧
  (∃ group row,
     group ∈ control_groups
       (controls_of "packages"
          [KStr "atmosphere"; KStr "climate"; KStr "radar"]
          [KStr "pyart"; KStr "xarray"]) ∧
     group_class group = Some ["domains"] ∧
     row ∈ group_rows group ∧ row_tag row = Some (KStr "climate")).
Proof.
  split; [reflexivity|].
  apply (tags_collected_whatever_the_card canonical_order
           ["radar-cookbook"; "broken-cookbook"] [Some radar; Some broken]
           _ [render_cookbook "radar-cookbook" radar; None]
           "broken-cookbook" broken "domains" {[KStr "climate"]} (KStr "climate")).
  - vm_compute. reflexivity.
  - right. left.
  - left.
  - unfold tag_set, set_update. simpl. f_equal.
  - set_solver.
Defined.

(** ** Rows are sorted *)

Lemma row_tag_row_node c (tags : list key) :
  row_tag <$> (row_node c <$> tags) = Some <$> tags.
Proof. by rewrite <-list_fmap_compose. Qed.

(** C6: in each group of the controls the tags of the rows, read from
    first row to last, are in strictly ascending order of their strings,
    so no tag has two rows; every row has its tag. *)
Theorem control_rows_sorted (order : set_order) body cookbook_entries
    controls cards group :
  render_cookbooks_from order body cookbook_entries = Return (controls, cards) →
  group ∈ control_groups controls →
  ∃ tags,
    row_tag <$> group_rows group = Some <$> tags ∧
    StronglySorted key_lt tags ∧
    NoDup tags.
Proof.
  intros H Hg.
  apply render_cookbooks_from_inv in H as (dtags & ptags & _ & Hd & Hp & -> & _).
  assert (∀ s, NoDup (order s)) as Hnd.
  { intros s. rewrite enum_perm. apply NoDup_elements. }
  apply control_groups_controls_of in Hg
    as (label & cat & tags & [[_ ->]|[_ ->]] & ->); cbn [group_rows].
  - exists dtags. split; [apply row_tag_row_node|].
    eauto using sorted_StronglySorted, sorted_NoDup.
  - exists ptags. split; [apply row_tag_row_node|].
    eauto using sorted_StronglySorted, sorted_NoDup.
Qed.

Lemma control_rows_sorted_witness :
  ∃ tags,
    row_tag <$> group_rows
      (div (span [text (YStr "Filter by Domain:")] [("fontWeight", CssStr "bold")]
              :: (row_node "packages" <$>
                    [KStr "atmosphere"; KStr "ocean"; KStr "radar"]))
           None (Some ["domains"]))
    = Some <$> tags ∧
    StronglySorted key_lt tags ∧
    NoDup tags.
Proof.
  apply (control_rows_sorted reversed_order
           ["radar-cookbook"; "lost-cookbook"; "ocean-cookbook"]
           [Some radar; None; Some ocean]
           (controls_of "packages"
              [KStr "atmosphere"; KStr "ocean"; KStr "radar"]
              [KStr "dask"; KStr "pyart"; KStr "xarray"])
           [render_cookbook "radar-cookbook" radar;
            render_cookbook "ocean-cookbook" ocean]).
  - vm_compute. reflexivity.
  - left.
Defined.

(** ** Aggregation does not depend on order or repetition *)

Lemma aggregate_Return l index :
  aggregate l = Return index ↔
  Forall collectable l ∧
  index = two_sets (⋃ (tags_of "domains" <$> l)) (⋃ (tags_of "packages" <$> l)).
Proof.
  unfold aggregate. rewrite bind_Return.
  change (tag_lists initial_state) with (two_sets (∅ : gset key) ∅).
  split.
  - intros (acc & Hacc & [= <-]).
    apply aggregate_from_Return in Hacc as [Hall ->].
    by rewrite !(left_id_L ∅ (∪)).
  - intros [Hall ->]. eexists. split.
    + apply aggregate_from_Return. by split.
    + cbn [fst]. by rewrite !(left_id_L ∅ (∪)).
Qed.

Lemma union_list_same_members {A} (f : A → gset key) (l1 l2 : list A) :
  (∀ x, x ∈ l1 ↔ x ∈ l2) → ⋃ (f <$> l1) = ⋃ (f <$> l2).
Proof.
  intros Hmem. apply set_eq. intros k.
  rewrite !elem_of_union_list. setoid_rewrite list_elem_of_fmap.
  split; intros (s & (x & -> & Hx) & Hk); exists (f x);
    (split; [exists x; split; [done | by apply Hmem] | done]).
Qed.

(** Two collections with the same records give the same index. *)
Lemma aggregate_same_members l1 l2 index :
  (∀ r, r ∈ l1 ↔ r ∈ l2) →
  aggregate l1 = Return index → aggregate l2 = Return index.
Proof.
  intros Hmem. rewrite !aggregate_Return. intros [Hall ->]. split.
  - apply Forall_forall. intros r Hr. apply Hmem in Hr.
    by eapply Forall_forall in Hall.
  - by rewrite !(union_list_same_members _ l1 l2).
Qed.

(** C5: an index obtained from a collection of records is also obtained
    from any permutation of it, and from the collection with any of its
    records aggregated once more; it holds one set per category. *)
Theorem aggregate_commutative_idempotent l1 l2 index :
  l1 ≡ₚ l2 →
  aggregate l1 = Return index →
  aggregate l2 = Return index ∧
  (∀ r, r ∈ l1 → aggregate (r :: l2) = Return index) ∧
  (∃ d p : gset key, index = [("domains", d); ("packages", p)]).
Proof.
  intros Hperm Hagg. split_and!.
  - apply (aggregate_same_members l1); [|done].
    intros r. by rewrite Hperm.
  - intros r Hr. apply (aggregate_same_members l1); [|done].
    intros r'. rewrite elem_of_cons, <-Hperm.
    split; [by right | by intros [->|?]].
  - apply aggregate_Return in Hagg as [_ ->]. by eexists _, _.
Qed.

Lemma aggregate_commutative_idempotent_witness :
  aggregate [ocean; radar]
    = Return (two_sets {[KStr "atmosphere"; KStr "ocean"; KStr "radar"]}
                       {[KStr "dask"; KStr "pyart"; KStr "xarray"]}) ∧
  (∀ r, r ∈ [radar; ocean] →
        aggregate [r; ocean; radar]
        = Return (two_sets {[KStr "atmosphere"; KStr "ocean"; KStr "radar"]}
                           {[KStr "dask"; KStr "pyart"; KStr "xarray"]})) ∧
  (∃ d p : gset key,
     two_sets {[KStr "atmosphere"; KStr "ocean"; KStr "radar"]}
              {[KStr "dask"; KStr "pyart"; KStr "xarray"]}
     = [("domains", d); ("packages", p)]).
Proof.
  apply (aggregate_commutative_idempotent [radar; ocean] [ocean; radar]).
  - apply perm_swap.
  - vm_compute. reflexivity.
Defined.

(** ** Failed fetches *)

Section Oracle.
(** The outcome of the fetch of each resource: its record, or [None]
    for the resources whose fetch fails. *)
Variable fetch : string → option cookbook.

Lemma fetched_oracle body :
  fetched body (fetch <$> body) = omap (λ name, pair name <$> fetch name) body.
Proof.
  unfold fetched. induction body as [|name body IH]; [done|].
  cbn [fmap list_fmap zip zip_with omap list_omap fst snd]. rewrite IH.
  by destruct (fetch name).
Qed.

Lemma fetched_successful body :
  fetched (filter (λ name, is_Some (fetch name)) body)
          (fetch <$> filter (λ name, is_Some (fetch name)) body)
  = fetched body (fetch <$> body).
Proof.
  rewrite !fetched_oracle. induction body as [|name body IH]; [done|].
  rewrite filter_cons. destruct (decide (is_Some (fetch name))) as [Hs|Hs].
  - cbn [omap list_omap]. by rewrite IH.
  - cbn [omap list_omap]. rewrite IH.
    destruct (fetch name); [|done]. destruct Hs. eauto.
Qed.

Lemma store_cards_not_stored cd l name :
  name ∉ l.*1 → store_cards cd l !! name = cd !! name.
Proof.
  revert cd. induction l as [|[n d] l IH]; intros cd Hn; [done|].
  cbn [store_cards foldl fst snd]. fold (store_cards (<[n:=render_cookbook n d]> cd) l).
  rewrite IH.
  - apply lookup_insert_ne. intros ->. apply Hn. by left.
  - intros ?. apply Hn. by right.
Qed.

Lemma store_cards_oracle cd l name data :
  Forall (λ e, fetch e.1 = Some e.2) l →
  name ∈ l.*1 →
  fetch name = Some data →
  store_cards cd l !! name = Some (render_cookbook name data).
Proof.
  revert cd. induction l as [|[n d] l IH]; intros cd Hall Hn Hf.
  - by apply elem_of_nil in Hn.
  - apply Forall_cons in Hall as [Hnd Hall]. cbn [fst snd] in Hnd.
    cbn [store_cards foldl fst snd].
    fold (store_cards (<[n:=render_cookbook n d]> cd) l).
    destruct (decide (name ∈ l.*1)) as [Hin|Hin]; [by apply IH|].
    rewrite store_cards_not_stored by done.
    apply elem_of_cons in Hn as [->|Hn]; [|done].
    cbn [fst] in *. rewrite lookup_insert_eq. congruence.
Qed.

Lemma fetched_oracle_Forall body :
  Forall (λ e, fetch e.1 = Some e.2) (fetched body (fetch <$> body)).
Proof.
  rewrite fetched_oracle. apply Forall_forall. intros [n d] Hin.
  apply list_elem_of_omap in Hin as (name & _ & Hf).
  destruct (fetch name) eqn:E; [|done]. by injection Hf as <- <-.
Qed.

Lemma fetched_oracle_names body name :
  name ∈ (fetched body (fetch <$> body)).*1 ↔ name ∈ body ∧ is_Some (fetch name).
Proof.
  rewrite fetched_oracle, list_elem_of_fmap. split.
  - intros ([n d] & -> & Hin). apply list_elem_of_omap in Hin as (name & Hb & Hf).
    destruct (fetch name) eqn:E; [|done]. injection Hf as <- <-.
    cbn [fst]. rewrite E. eauto.
  - intros [Hb [d Hd]]. exists (name, d). split; [done|].
    apply list_elem_of_omap. exists name. by rewrite Hd.
Qed.

(** The card sequence: one entry for every occurrence of a resource that
    was fetched, in the order of [body]. *)
Lemma cookbook_nodes_oracle body names :
  names ⊆ body →
  cookbook_nodes names (store_cards ∅ (fetched body (fetch <$> body)))
  = omap (λ name, render_cookbook name <$> fetch name) names.
Proof.
  unfold cookbook_nodes. intros Hsub. apply list_omap_ext, Forall2_same_length_lookup.
  split; [done|]. intros i n n' Hn Hn'. assert (n' = n) as -> by congruence.
  destruct (fetch n) as [d|] eqn:Hf.
  - apply store_cards_oracle; [apply fetched_oracle_Forall| |done].
    apply fetched_oracle_names. split; [|by rewrite Hf].
    apply Hsub. by eapply list_elem_of_lookup_2.
  - rewrite store_cards_not_stored; [done|].
    rewrite fetched_oracle_names, Hf. by intros [_ [? ?]].
Qed.

Lemma omap_successful {B} (g : string → cookbook → B) (body : list string) :
  omap (λ name, g name <$> fetch name) (filter (λ name, is_Some (fetch name)) body)
  = omap (λ name, g name <$> fetch name) body.
Proof.
  induction body as [|name body IH]; [done|].
  rewrite filter_cons. destruct (decide (is_Some (fetch name))) as [Hs|Hs].
  - cbn [omap list_omap]. by rewrite IH.
  - cbn [omap list_omap]. rewrite IH.
    destruct (fetch name); [|done]. destruct Hs. eauto.
Qed.

(** A fetched resource whose card cannot be rendered is not dropped from
    the card sequence: its entry is [None]. *)
Lemma failed_card_is_null_entry (order : set_order) body controls cards name data :
  render_cookbooks_from order body (fetch <$> body) = Return (controls, cards) →
  name ∈ body →
  fetch name = Some data →
  render_cookbook name data = None →
  None ∈ cards.
Proof.
  intros H Hin Hf Hr.
  apply render_cookbooks_from_inv in H as (_ & _ & _ & _ & _ & _ & ->).
  rewrite (cookbook_nodes_oracle body body) by done.
  apply list_elem_of_omap. exists name. split; [done|].
  by rewrite Hf, <-Hr.
Qed.

(** When the outcome of a fetch is a function of the identifier, the run
    gives what it gives on the list of the fetched identifiers alone, and
    its card sequence has one entry for each occurrence of a fetched
    identifier, in the order of the input. *)
Theorem failed_fetches_are_removals (order : set_order) (body : list string) :
  render_cookbooks_from order body (fetch <$> body)
  = render_cookbooks_from order
      (filter (λ name, is_Some (fetch name)) body)
      (fetch <$> filter (λ name, is_Some (fetch name)) body) ∧
  ∀ controls cards,
    render_cookbooks_from order body (fetch <$> body) = Return (controls, cards) →
    cards = omap (λ name, render_cookbook name <$> fetch name) body.
Proof.
  split.
  - rewrite !render_cookbooks_from_eq, fetched_successful.
    rewrite (cookbook_nodes_oracle body body) by done.
    rewrite (cookbook_nodes_oracle body (filter _ body))
      by (intros n Hn; by apply list_elem_of_filter in Hn as [_ ?]).
    by rewrite (omap_successful render_cookbook).
  - intros controls cards H.
    apply render_cookbooks_from_inv in H as (_ & _ & _ & _ & _ & _ & ->).
    by apply cookbook_nodes_oracle.
Qed.
End Oracle.

(** ** The thread pool *)

Section PoolFacts.
Context {A R : Type} (fn : A → R).

Lemma complete_lookup futures i j :
  complete fn futures j !! i =
  (λ f : A * option R, if decide (i = j) then (f.1, Some (fn f.1)) else f)
    <$> futures !! i.
Proof.
  unfold complete. destruct (decide (i = j)) as [->|Hne].
  - by rewrite list_lookup_alter_eq.
  - rewrite list_lookup_alter_ne by done. by destruct (futures !! i).
Qed.

(** A future holds the result of its own call once its index has come
    up in the schedule, and is left as it was until then. *)
Lemma run_workers_lookup schedule futures i :
  run_workers fn schedule futures !! i =
  (λ f : A * option R,
     if decide (i ∈ schedule) then (f.1, Some (fn f.1)) else f)
    <$> futures !! i.
Proof.
  revert futures. induction schedule as [|j schedule IH]; intros futures.
  - cbn [run_workers foldl]. destruct (futures !! i); [|done].
    cbn [fmap option_fmap option_map]. rewrite decide_False; [done|].
    apply not_elem_of_nil.
  - cbn [run_workers foldl]. fold (run_workers fn schedule (complete fn futures j)).
    rewrite IH, complete_lookup.
    destruct (futures !! i) as [[x r]|]; [|done].
    cbn [fmap option_fmap option_map]. f_equal.
    destruct (decide (i = j)) as [->|Hne].
    + rewrite (decide_True (P := j ∈ j :: schedule)) by by left.
      by destruct (decide (j ∈ schedule)).
    + destruct (decide (i ∈ schedule)) as [Hin|Hin].
      * rewrite (decide_True (P := i ∈ j :: schedule)); [done | by right].
      * rewrite (decide_False (P := i ∈ j :: schedule)); [done|].
        by intros [?|?]%elem_of_cons.
Qed.

Lemma length_run_workers schedule futures :
  length (run_workers fn schedule futures) = length futures.
Proof.
  revert futures. induction schedule as [|j schedule IH]; intros futures; [done|].
  cbn [run_workers foldl]. fold (run_workers fn schedule (complete fn futures j)).
  rewrite IH. apply length_alter.
Qed.

Lemma pool_map_all schedule xs :
  (∀ i, i < length xs → i ∈ schedule) →
  pool_map schedule fn xs = Some (fn <$> xs).
Proof.
  intros Hall. unfold pool_map, results. apply mapM_Some.
  apply Forall2_same_length_lookup. split.
  - rewrite length_run_workers. unfold submit_all. by rewrite !length_fmap.
  - intros i f r Hf Hr. rewrite run_workers_lookup in Hf.
    unfold submit_all in Hf. rewrite list_lookup_fmap in Hf.
    rewrite list_lookup_fmap in Hr.
    destruct (xs !! i) as [x|] eqn:Hx; [|done].
    cbn [fmap option_fmap option_map] in Hf, Hr.
    rewrite decide_True in Hf by (apply Hall; by eapply lookup_lt_Some).
    injection Hf as <-. by injection Hr as <-.
Qed.
End PoolFacts.

Lemma schedule_covers schedule n i :
  schedule ≡ₚ seq 0 n → i < n → i ∈ schedule.
Proof. intros -> Hi. apply elem_of_seq. lia. Qed.

Section FetchFacts.
Variable fetch_yaml : string → result yaml.
Variable py_format : yaml → string.

(** C3: once every fetch has completed, in whatever order, [pool.map]
    returns one entry for each identifier, in the order of the
    identifiers: the record [fetch_cookbook_data] builds where nothing
    was raised, [None] where something was. *)
Theorem fetch_results_in_request_order schedule (body : list string) :
  schedule ≡ₚ seq 0 (length body) →
  ∃ cookbook_entries,
    pool_map schedule (fetch_cookbook_data fetch_yaml py_format) body
      = Some cookbook_entries ∧
    length cookbook_entries = length body ∧
    ∀ i name, body !! i = Some name →
      match fetch_record fetch_yaml py_format name with
      | Return data => cookbook_entries !! i = Some (Some data)
      | Raise _ => cookbook_entries !! i = Some None
      end.
Proof.
  intros Hs. eexists. split; [|split].
  - apply pool_map_all. intros i Hi. by eapply schedule_covers.
  - apply length_fmap.
  - intros i name Hi. rewrite list_lookup_fmap, Hi.
    unfold fetch_cookbook_data. cbn [fmap option_fmap option_map].
    by destruct (fetch_record fetch_yaml py_format name).
Qed.
End FetchFacts.

Lemma fetch_results_in_request_order_witness :
  ∃ cookbook_entries,
    pool_map [2; 0; 1] (fetch_cookbook_data sample_site sample_format)
      ["radar-cookbook"; "lost-cookbook"; "plain-cookbook"]
      = Some cookbook_entries ∧
    length cookbook_entries = 3 ∧
    ∀ i name,
      ["radar-cookbook"; "lost-cookbook"; "plain-cookbook"] !! i = Some name →
      match fetch_record sample_site sample_format name with
      | Return data => cookbook_entries !! i = Some (Some data)
      | Raise _ => cookbook_entries !! i = Some None
      end.
Proof.
  apply (fetch_results_in_request_order sample_site sample_format [2; 0; 1]
           ["radar-cookbook"; "lost-cookbook"; "plain-cookbook"]).
  apply (Permutation_cons_app [0; 1] [] 2). reflexivity.
Defined.

(** ** A gallery document without tags *)


Section NoTags.
Variable fetch_yaml : string → result yaml.
Variable py_format : yaml → string.

End NoTags.


(** ** Determinism *)

Lemma render_cookbooks_from_order (o1 o2 : set_order) body cookbook_entries :
  render_cookbooks_from o1 body cookbook_entries
  = render_cookbooks_from o2 body cookbook_entries.
Proof.
  rewrite !render_cookbooks_from_eq.
  assert (∀ s, sorted (o1 s) = sorted (o2 s)) as Hs.
  { intros s. apply sorted_perm. by rewrite !enum_perm. }
  by rewrite !Hs.
Qed.

Section Determinism.
Variable fetch_yaml : string → result yaml.
Variable py_format : yaml → string.

(** C9: two runs on the same input document and the same list of
    identifiers, against the same remote documents, return, and return
    the same thing, whatever the order in which their fetches complete
    and whatever the order in which their sets are iterated. *)
Theorem run_transform_deterministic (r1 r2 : run) body data :
  schedule r1 ≡ₚ seq 0 (length body) →
  schedule r2 ≡ₚ seq 0 (length body) →
  ∃ out,
    run_transform fetch_yaml py_format r1 body data = Some out ∧
    run_transform fetch_yaml py_format r2 body data = Some out.
Proof.
  intros H1 H2. unfold run_transform, render_cookbooks.
  rewrite !pool_map_all by (intros i Hi; by eapply schedule_covers).
  cbn [mbind option_bind].
  rewrite (render_cookbooks_from_order (order r1) (order r2)). eauto.
Qed.
End Determinism.

Lemma run_transform_deterministic_witness :
  ∃ out,
    run_transform sample_site sample_format (Run [2; 0; 1] canonical_order)
      ["radar-cookbook"; "lost-cookbook"; "plain-cookbook"] sample_document
      = Some out ∧
    run_transform sample_site sample_format (Run [0; 1; 2] reversed_order)
      ["radar-cookbook"; "lost-cookbook"; "plain-cookbook"] sample_document
      = Some out.
Proof.
  apply (run_transform_deterministic sample_site sample_format
           (Run [2; 0; 1] canonical_order) (Run [0; 1; 2] reversed_order)
           ["radar-cookbook"; "lost-cookbook"; "plain-cookbook"] sample_document).
  - apply (Permutation_cons_app [0; 1] [] 2). reflexivity.
  - reflexivity.
Defined.


(** * Further properties *)

(** ** Fetching *)

Lemma subscript_Return v k x :
  subscript v k = Return x ↔ ∃ d, v = YMap d ∧ od_get k d = Some x.
Proof.
  split.
  - destruct v as [| | |d]; simpl; try done.
    destruct (od_get k d) eqn:E; [|done]. intros [= ->]. eauto.
  - intros (d & -> & Hk). simpl. by rewrite Hk.
Qed.

Section FetchOutcome.
Variable fetch_yaml : string → result yaml.
Variable py_format : yaml → string.

(** X1: [fetch_cookbook_data] returns a record exactly when both documents
    are fetched, the first is a mapping with a mapping [project] that has
    a [title], and the second is a mapping with a [thumbnail]; the record
    then has that title, the two addresses built from the name and the
    thumbnail, and the [tags] of the second document as they are, or the
    empty mapping when it has none.  In every other case it returns
    [None]. *)
Theorem fetch_cookbook_data_Some name data :
  fetch_cookbook_data fetch_yaml py_format name = Some data ↔
  ∃ config project gallery thumbnail,
    fetch_yaml (("https://raw.githubusercontent.com/ProjectPythia-MystMD/"
                   +:+ name +:+ "/main") +:+ "/myst.yml") = Return (YMap config) ∧
    od_get "project" config = Some (YMap project) ∧
    od_get "title" project = Some (title data) ∧
    fetch_yaml (("https://raw.githubusercontent.com/ProjectPythia-MystMD/"
                   +:+ name +:+ "/main") +:+ "/_gallery_info.yml") = Return (YMap gallery) ∧
    od_get "thumbnail" gallery = Some thumbnail ∧
    book_url data = "https://projectpythia-mystmd.github.io/" +:+ name ∧
    image_url data = ("https://raw.githubusercontent.com/ProjectPythia-MystMD/"
                        +:+ name +:+ "/main") +:+ "/" +:+ py_format thumbnail ∧
    tags data = default (YMap []) (od_get "tags" gallery).
Proof.
  unfold fetch_cookbook_data. rewrite try_except_Some.
  unfold fetch_record. cbv zeta. split.
  - intros H.
    apply bind_Return in H as (config & Hconfig & H).
    apply bind_Return in H as (project & Hproject & H).
    apply bind_Return in H as (ttl & Htitle & H).
    apply bind_Return in H as (gallery & Hgallery & H).
    apply bind_Return in H as (thumbnail & Hthumb & H).
    apply bind_Return in H as (tgs & Htags & [= <-]).
    apply subscript_Return in Hproject as (c & -> & Hproject).
    apply subscript_Return in Htitle as (p & -> & Htitle).
    apply subscript_Return in Hthumb as (g & -> & Hthumb).
    injection Htags as <-.
    exists c, p, g, thumbnail. by split_and!.
  - intros (c & p & g & thumbnail & Hc & Hp & Ht & Hg & Hth & Hb & Hi & Htg).
    rewrite Hc. cbn [bind subscript]. rewrite Hp. cbn [bind subscript].
    rewrite Ht. cbn [bind]. rewrite Hg. cbn [bind subscript].
    rewrite Hth. cbn [bind dict_get]. destruct data as [t b i tg].
    cbn in Hb, Hi, Htg. by subst.
Qed.
End FetchOutcome.

(** ** Cards *)

Lemma py_iter_is_Return v : is_Return (py_iter v) ↔ v ≠ YNull.
Proof.
  destruct v; simpl; split; try done; try (intros _; by eexists).
  by intros [? ?].
Qed.

Lemma flat_mapM_is_Return {A B} (f : A → result (list B)) l :
  is_Return (flat_mapM f l) ↔ Forall (λ x, is_Return (f x)) l.
Proof.
  induction l as [|x l IH]; simpl.
  - split; [constructor | by eexists].
  - rewrite Forall_cons, <-IH. unfold is_Return.
    destruct (f x) as [ys|]; simpl.
    + destruct (flat_mapM f l) as [zs|]; simpl.
      * split; [intros _; split; by eexists | by eexists].
      * split; [by intros [? ?] | by intros [_ [? ?]]].
    + split; [by intros [? ?] | by intros [[? ?] _]].
Qed.

Lemma label_spans_Return entry :
  label_spans entry = Return (label_of <$> entry_pairs entry).
Proof.
  destruct entry as [cat v]. unfold label_spans, entry_pairs. cbn [fst snd].
  destruct v as [|s|l|d]; cbn [truthy py_iter].
  - done.
  - case_bool_decide as Hs; cbn [bind].
    + by rewrite <-!list_fmap_compose.
    + by subst.
  - case_bool_decide as Hs; cbn [bind].
    + by rewrite <-!list_fmap_compose.
    + by subst.
  - case_bool_decide as Hs; cbn [bind].
    + by rewrite <-!list_fmap_compose.
    + by subst.
Qed.

Lemma flat_mapM_label_spans d :
  flat_mapM label_spans d = Return (label_of <$> tag_pairs d).
Proof.
  unfold tag_pairs. induction d as [|entry d IH]; [done|].
  cbn [flat_mapM fmap list_fmap concat]. rewrite label_spans_Return, IH.
  cbn [bind]. by rewrite fmap_app.
Qed.

Lemma flat_mapM_class_items d class :
  flat_mapM class_items d = Return class → class = (tag_pairs d).*2.
Proof.
  unfold tag_pairs. revert class. induction d as [|[cat v] d IH]; intros class.
  - by intros [= <-].
  - cbn [flat_mapM]. intros H.
    apply bind_Return in H as (ys & Hys & H).
    apply bind_Return in H as (zs & Hzs & [= <-]).
    cbn [fmap list_fmap concat]. rewrite fmap_app, <-(IH zs Hzs). f_equal.
    unfold class_items in Hys. unfold entry_pairs. cbn [fst snd] in *.
    rewrite Hys, <-list_fmap_compose. by rewrite list_fmap_id.
Qed.

(** X2: [render_cookbook] returns [None] when the tags of the record are
    not a mapping and when some value of the mapping is null; it returns
    a card when the tags are a mapping whose values are all strings,
    sequences or mappings. *)
Theorem render_cookbook_outcome name data :
  ((∀ d, tags data ≠ YMap d) ∨
   (∃ d cat, tags data = YMap d ∧ (cat, YNull) ∈ d) →
   render_cookbook name data = None) ∧
  (∀ d, tags data = YMap d → Forall (λ entry, iterable entry.2) d →
        is_Some (render_cookbook name data)).
Proof.
  unfold render_cookbook. split.
  - intros Hbad. destruct (try_except (render_card data)) as [c|] eqn:Hc; [|done].
    apply try_except_Some, render_card_Return in Hc
      as (d & class & labels & Ht & Hclass & _ & _).
    destruct Hbad as [Hbad|(d' & cat & Ht' & Hnull)]; [by destruct (Hbad d)|].
    assert (d' = d) as -> by congruence.
    assert (is_Return (flat_mapM class_items d)) as Hr by by eexists.
    apply flat_mapM_is_Return in Hr.
    rewrite Forall_forall in Hr. by destruct (Hr _ Hnull).
  - intros d Ht Hall.
    assert (is_Return (flat_mapM class_items d)) as [class Hclass].
    { apply flat_mapM_is_Return. eapply Forall_impl; [done|].
      intros [cat v] Hv. apply py_iter_is_Return. by destruct v. }
    eexists. apply try_except_Some, render_card_Return.
    exists d, class, (label_of <$> tag_pairs d).
    split_and!; [done|done|apply flat_mapM_label_spans|done].
Qed.

Lemma render_cookbook_outcome_witness :
  render_cookbook "hollow-cookbook" hollow = None ∧
  is_Some (render_cookbook "terse-cookbook" terse).
Proof.
  split.
  - apply (proj1 (render_cookbook_outcome "hollow-cookbook" hollow)).
    right. exists [("domains", YNull); ("packages", YSeq [YStr "numpy"])], "domains".
    split; [reflexivity | left].
  - apply (proj2 (render_cookbook_outcome "terse-cookbook" terse)
             [("domains", YStr "né")]); [reflexivity|].
    repeat constructor.
Defined.

(** X3: a rendered card links to the book, shows the title and the image,
    and has one class and one label for every (category, item) pair of
    the tags, both in the order of the pairs; the label of a pair shows
    the item in the style of the category. *)
Theorem rendered_card_shape name data c :
  render_cookbook name data = Some c →
  ∃ d, tags data = YMap d ∧
       c = card (book_url data)
             (YStr "tagged-card" :: (tag_pairs d).*2)
             [ cardTitle [text (title data)];
               div [image (image_url data);
                    div (label_of <$> tag_pairs d) None None] None None ].
Proof.
  intros Hc. apply try_except_Some, render_card_Return in Hc
    as (d & class & labels & Ht & Hclass & Hlabels & ->).
  exists d. split; [done|].
  rewrite flat_mapM_label_spans in Hlabels. injection Hlabels as <-.
  by rewrite (flat_mapM_class_items _ _ Hclass).
Qed.

Lemma rendered_card_shape_witness :
  ∃ d, tags ocean = YMap d ∧
       card (book_url ocean)
         [YStr "tagged-card"; YStr "xarray"; YStr "dask"; YStr "ocean"]
         [ cardTitle [text (title ocean)];
           div [image (image_url ocean);
                div [label_of ("packages", YStr "xarray");
                     label_of ("packages", YStr "dask");
                     label_of ("domains", YStr "ocean")] None None] None None ]
       = card (book_url ocean)
           (YStr "tagged-card" :: (tag_pairs d).*2)
           [ cardTitle [text (title ocean)];
             div [image (image_url ocean);
                  div (label_of <$> tag_pairs d) None None] None None ].
Proof. apply (rendered_card_shape "ocean-cookbook" ocean). reflexivity. Defined.

(** X4: the style looked up for a category is the default style exactly
    when the category is neither ["domains"] nor ["packages"]; the three
    styles share the layout and differ in the background. *)
Theorem styles_get_default category :
  (styles_get category = DEFAULT_STYLE ↔
   category ≠ "domains" ∧ category ≠ "packages") ∧
  styles_get "domains" ≠ styles_get "packages" ∧
  ∃ background, styles_get category = ("background", CssStr background) :: LAYOUT_STYLE.
Proof.
  unfold styles_get, styles. cbn [od_get]. split_and!.
  - destruct (decide ("domains" = category)) as [<-|Hd]; cbn [default].
    { split; [discriminate | by intros [? _]]. }
    destruct (decide ("packages" = category)) as [<-|Hp]; cbn [default].
    { split; [discriminate | by intros [_ ?]]. }
    split; [|done]. intros _. split; congruence.
  - discriminate.
  - destruct (decide ("domains" = category)); cbn [default]; [by eexists|].
    destruct (decide ("packages" = category)); cbn [default]; by eexists.
Qed.

(** ** Runs that return and runs that raise *)

Lemma for_each_is_Return {A B} (f : A → result B) l :
  is_Return (for_each f l) ↔ Forall (λ x, is_Return (f x)) l.
Proof.
  induction l as [|x l IH]; simpl.
  - split; [constructor | by eexists].
  - rewrite Forall_cons, <-IH. unfold is_Return.
    destruct (f x) as [y|]; simpl.
    + destruct (for_each f l) as [ys|]; simpl.
      * split; [intros _; split; by eexists | by eexists].
      * split; [by intros [? ?] | by intros [_ [? ?]]].
    + split; [by intros [? ?] | by intros [[? ?] _]].
Qed.

Lemma set_update_is_Return s v : is_Return (set_update s v) ↔ updatable v.
Proof.
  unfold set_update, updatable. destruct (py_iter v) as [items|e]; cbn [bind].
  - split.
    + intros [t Ht]. exists items. split; [done|].
      apply for_each_is_Return.
      destruct (for_each hashable items); [by eexists | done].
    + intros (items' & [= <-] & Hall).
      apply for_each_is_Return in Hall as [ks ->]. by eexists.
  - split; [by intros [? ?] | by intros (? & ? & _)].
Qed.

Lemma tag_set_is_Return data cat :
  is_Return (tag_set data cat) ↔
  ∃ d, tags data = YMap d ∧ updatable (default (YSeq []) (od_get cat d)).
Proof.
  unfold tag_set. destruct (tags data) as [| | |d]; simpl;
    try (split; [by intros [? ?] | by intros (? & ? & _)]).
  rewrite set_update_is_Return. split; [by exists d|].
  by intros (d' & [= <-] & ?).
Qed.

Lemma collectable_well_tagged data : collectable data ↔ well_tagged data.
Proof.
  unfold collectable, well_tagged. rewrite !tag_set_is_Return. split.
  - intros [(d & Ht & Hd) (d' & Ht' & Hp)].
    assert (d' = d) as -> by congruence. by exists d.
  - intros (d & Ht & Hd & Hp). split; by exists d.
Qed.

Lemma aggregate_is_Return l : is_Return (aggregate l) ↔ Forall collectable l.
Proof.
  split.
  - intros [index H]. by apply aggregate_Return in H as [? _].
  - intros Hall. eexists. apply aggregate_Return. by split.
Qed.

Lemma sorted_is_Return l : is_Return (sorted l) ↔ length l ≤ 1 ∨ KNone ∉ l.
Proof.
  destruct l as [|k [|k' l]].
  - split; [left; simpl; lia | by eexists].
  - split; [left; simpl; lia | by eexists].
  - unfold sorted. rewrite for_each_as_str.
    destruct (decide (KNone ∈ k :: k' :: l)) as [Hin|Hin]; cbn [bind].
    + split; [by intros [? ?] | intros [Hl|?]; [simpl in Hl; lia | done]].
    + split; [by right | by eexists].
Qed.

Lemma sorted_order_is_Return (order : set_order) s :
  is_Return (sorted (order s)) ↔ sortable s.
Proof.
  rewrite sorted_is_Return. unfold sortable, size, set_size. cbn [compose].
  by rewrite !enum_perm, elem_of_elements.
Qed.

Lemma fetched_elem_of body cookbook_entries name data :
  (name, data) ∈ fetched body cookbook_entries ↔
  (name, Some data) ∈ zip body cookbook_entries.
Proof.
  unfold fetched. rewrite list_elem_of_omap. split.
  - intros ([n [d|]] & Hin & Heq); [|done]. by injection Heq as -> ->.
  - intros Hin. by exists (name, Some data).
Qed.

Lemma fetched_all_failed body cookbook_entries :
  Forall (λ e, e = None) cookbook_entries → fetched body cookbook_entries = [].
Proof.
  intros Hall. destruct (fetched body cookbook_entries) as [|[name data] l] eqn:E; [done|].
  assert ((name, data) ∈ fetched body cookbook_entries) as Hin by (rewrite E; by left).
  apply fetched_elem_of, elem_of_zip_r in Hin.
  rewrite Forall_forall in Hall. by specialize (Hall _ Hin).
Qed.

(** X5: when no fetch returns a record, and so also for an empty list of
    identifiers, the run returns the two groups with their bold labels
    and no row, and no card; the unbound loop variable is never read. *)
Theorem nothing_fetched (order : set_order) body cookbook_entries :
  Forall (λ e, e = None) cookbook_entries →
  render_cookbooks_from order body cookbook_entries =
  Return
    (div [ div [span [text (YStr "Filter by Domain:")] [("fontWeight", CssStr "bold")]]
             None (Some ["domains"]);
           div [span [text (YStr "Filter by Package:")] [("fontWeight", CssStr "bold")]]
             None (Some ["packages"]) ]
       None (Some ["filter-controls"]),
     []).
Proof.
  intros Hall. rewrite render_cookbooks_from_eq, (fetched_all_failed _ _ Hall).
  cbn [fmap list_fmap union_list foldr]. rewrite order_empty.
  cbn. unfold cookbook_nodes.
  replace (omap (λ name, (∅ : gmap string (option node)) !! name) body)
    with (@nil (option node)); [done|].
  symmetry. induction body as [|name body IH]; [done|].
  cbn [omap list_omap]. by rewrite lookup_empty.
Qed.

Lemma nothing_fetched_witness :
  render_cookbooks_from reversed_order ["lost-cookbook"; "gone-cookbook"] [None; None] =
  Return
    (div [ div [span [text (YStr "Filter by Domain:")] [("fontWeight", CssStr "bold")]]
             None (Some ["domains"]);
           div [span [text (YStr "Filter by Package:")] [("fontWeight", CssStr "bold")]]
             None (Some ["packages"]) ]
       None (Some ["filter-controls"]),
     []).
Proof. apply nothing_fetched. repeat constructor. Defined.

Lemma od_get_elem_of {V} k (d : odict V) v : od_get k d = Some v → (k, v) ∈ d.
Proof.
  induction d as [|[k' v'] d IH]; [done|]. cbn [od_get].
  destruct (decide (k' = k)) as [->|Hne].
  - intros [= ->]. by left.
  - intros H. right. by apply IH.
Qed.

Lemma aggregate_Raise_of_uncollectable l data :
  data ∈ l → ¬ collectable data → ∃ e, aggregate l = Raise e.
Proof.
  intros Hin Hnot. destruct (aggregate l) as [index|e] eqn:E; [|by eexists].
  apply aggregate_Return in E as [Hall _].
  destruct Hnot. by eapply Forall_forall in Hall.
Qed.

(** X6: a fetched record whose tags are not a mapping, or whose tags give
    null for ["domains"] or ["packages"], has no card, and collecting its
    tags raises outside any [try]: the whole run raises, whatever the
    other records are. *)
Theorem uncollectable_record_aborts (order : set_order) body cookbook_entries name data :
  (name, Some data) ∈ zip body cookbook_entries →
  (∀ d, tags data ≠ YMap d) ∨
  (∃ d, tags data = YMap d ∧
        (od_get "domains" d = Some YNull ∨ od_get "packages" d = Some YNull)) →
  render_cookbook name data = None ∧
  ∃ e, render_cookbooks_from order body cookbook_entries = Raise e.
Proof.
  intros Hin Hbad. split.
  - destruct (render_cookbook name data) as [c|] eqn:Hc; [|done].
    apply try_except_Some, render_card_Return in Hc
      as (d & class & labels & Ht & Hclass & _ & _).
    destruct Hbad as [Hbad|(d' & Ht' & Hnull)]; [by destruct (Hbad d)|].
    assert (d' = d) as -> by congruence.
    assert (is_Return (flat_mapM class_items d)) as Hr by by eexists.
    apply flat_mapM_is_Return in Hr.
    assert (∃ cat, (cat, YNull) ∈ d) as [cat Hcat].
    { destruct Hnull as [H|H]; apply od_get_elem_of in H; eauto. }
    eapply Forall_forall in Hr; [|done]. by destruct Hr.
  - rewrite render_cookbooks_from_eq.
    destruct (aggregate_Raise_of_uncollectable
                (fetched body cookbook_entries).*2 data) as [e ->].
    + apply list_elem_of_fmap. exists (name, data). split; [done|].
      by apply fetched_elem_of.
    + rewrite collectable_well_tagged. intros (d & Ht & Hd & Hp).
      destruct Hbad as [Hbad|(d' & Ht' & Hnull)]; [by destruct (Hbad d)|].
      assert (d' = d) as -> by congruence.
      destruct Hnull as [H|H]; rewrite H in *; cbn [default] in *.
      * by destruct Hd as (? & ? & _).
      * by destruct Hp as (? & ? & _).
    + by eexists.
Qed.

Lemma uncollectable_record_aborts_witness :
  render_cookbook "hollow-cookbook" hollow = None ∧
  ∃ e, render_cookbooks_from canonical_order
         ["radar-cookbook"; "hollow-cookbook"; "ocean-cookbook"]
         [Some radar; Some hollow; Some ocean] = Raise e.
Proof.
  apply (uncollectable_record_aborts canonical_order
           ["radar-cookbook"; "hollow-cookbook"; "ocean-cookbook"]
           [Some radar; Some hollow; Some ocean] "hollow-cookbook" hollow).
  - right. left.
  - right. eexists. split; [reflexivity|]. left. reflexivity.
Defined.

Lemma for_each_hashable_strs (l : list string) :
  for_each hashable (YStr <$> l) = Return (KStr <$> l).
Proof. induction l as [|s l IH]; [done|]. cbn. by rewrite IH. Qed.

Lemma string_tagged_well_tagged data : string_tagged data → well_tagged data.
Proof.
  intros (d & Ht & Hcat). exists d. split; [done|].
  assert (∀ cat, cat ∈ ["domains"; "packages"] →
                 updatable (default (YSeq []) (od_get cat d))) as Hup.
  { intros cat Hin. destruct (od_get cat d) as [v|] eqn:Hv; cbn [default].
    - destruct (Hcat cat v Hin Hv) as [l ->]. exists (YStr <$> l).
      split; [done|]. apply Forall_fmap, Forall_forall. intros s _. by eexists.
    - exists []. by split. }
  split; apply Hup; [left | right; left].
Qed.

Lemma tags_of_string_tagged data cat :
  cat ∈ ["domains"; "packages"] → string_tagged data → KNone ∉ tags_of cat data.
Proof.
  intros Hin (d & Ht & Hcat). unfold tags_of, tag_set, set_update.
  rewrite Ht. cbn [dict_get bind].
  destruct (od_get cat d) as [v|] eqn:Hv; cbn [default id].
  - destruct (Hcat cat v Hin Hv) as [l ->]. cbn [py_iter bind].
    rewrite for_each_hashable_strs. cbn [bind].
    rewrite (left_id_L ∅ (∪)), elem_of_list_to_set.
    by intros (s & ? & _)%list_elem_of_fmap.
  - cbn. rewrite (left_id_L ∅ (∪)). apply not_elem_of_empty.
Qed.

(** X7: in a run that returns, the tags of every fetched record are a
    mapping whose values for the two known categories can be iterated
    and their items hashed, and neither tag set mixes [None] with
    another tag; and a run returns whenever the tags of every fetched
    record are a mapping that gives lists of strings for the known
    categories it has, whatever it gives for the others. *)
Theorem run_returns_conditions (order : set_order) body cookbook_entries :
  (is_Return (render_cookbooks_from order body cookbook_entries) →
   Forall well_tagged (fetched body cookbook_entries).*2 ∧
   sortable (⋃ (tags_of "domains" <$> (fetched body cookbook_entries).*2)) ∧
   sortable (⋃ (tags_of "packages" <$> (fetched body cookbook_entries).*2))) ∧
  (Forall string_tagged (fetched body cookbook_entries).*2 →
   is_Return (render_cookbooks_from order body cookbook_entries)).
Proof.
  assert (is_Return (render_cookbooks_from order body cookbook_entries) ↔
          Forall well_tagged (fetched body cookbook_entries).*2 ∧
          sortable (⋃ (tags_of "domains" <$> (fetched body cookbook_entries).*2)) ∧
          sortable (⋃ (tags_of "packages" <$> (fetched body cookbook_entries).*2)))
    as Hiff.
  { rewrite render_cookbooks_from_eq.
    rewrite <-(sorted_order_is_Return order (⋃ (tags_of "domains" <$> _))).
    rewrite <-(sorted_order_is_Return order (⋃ (tags_of "packages" <$> _))).
    assert (Forall well_tagged (fetched body cookbook_entries).*2
            ↔ is_Return (aggregate (fetched body cookbook_entries).*2)) as ->.
    { rewrite aggregate_is_Return. apply Forall_proper; [|done].
      intros data. symmetry. apply collectable_well_tagged. }
    unfold is_Return.
    destruct (aggregate _) as [index|]; cbn [bind];
      [|split; [by intros [? ?] | by intros [[? ?] _]]].
    destruct (sorted (order (⋃ (tags_of "domains" <$> _)))) as [dtags|]; cbn [bind];
      [|split; [by intros [? ?] | by intros (_ & [? ?] & _)]].
    destruct (sorted (order (⋃ (tags_of "packages" <$> _)))) as [ptags|]; cbn [bind];
      [|split; [by intros [? ?] | by intros (_ & _ & [? ?])]].
    split; [intros _; split_and!; by eexists | by eexists]. }
  split; [apply Hiff|]. intros Hall. apply Hiff.
  assert (∀ cat, cat ∈ ["domains"; "packages"] →
                 sortable (⋃ (tags_of cat <$> (fetched body cookbook_entries).*2)))
    as Hsort.
  { intros cat Hcat. right. rewrite elem_of_union_list.
    intros (s & Hs & Hnone). apply list_elem_of_fmap in Hs as (data & -> & Hdata).
    rewrite Forall_forall in Hall.
    by apply (tags_of_string_tagged data cat Hcat (Hall _ Hdata)). }
  split_and!.
  - eapply Forall_impl; [done|]. apply string_tagged_well_tagged.
  - apply Hsort. left.
  - apply Hsort. right. left.
Qed.

Lemma run_returns_conditions_witness :
  is_Return (render_cookbooks_from canonical_order
               ["radar-cookbook"; "lost-cookbook"; "broken-cookbook"]
               [Some radar; None; Some broken]).
Proof.
  apply (proj2 (run_returns_conditions canonical_order
                  ["radar-cookbook"; "lost-cookbook"; "broken-cookbook"]
                  [Some radar; None; Some broken])).
  repeat constructor.
  - exists [("domains", YSeq [YStr "radar"; YStr "atmosphere"; YStr "radar"]);
            ("packages", YSeq [YStr "xarray"; YStr "pyart"])].
    split; [reflexivity|]. intros cat v Hcat. cbn [od_get].
    repeat case_decide; try done.
    + intros [= <-]. by exists ["radar"; "atmosphere"; "radar"].
    + intros [= <-]. by exists ["xarray"; "pyart"].
  - exists [("domains", YSeq [YStr "climate"]); ("formats", YNull)].
    split; [reflexivity|]. intros cat v Hcat. cbn [od_get].
    repeat case_decide; try done.
    + intros [= <-]. by exists ["climate"].
    + subst. apply elem_of_cons in Hcat as [?|Hcat]; [done|].
      apply elem_of_cons in Hcat as [?|Hcat]; [done|]. by apply elem_of_nil in Hcat.
Defined.

(** ** What the controls show *)

(** X8: the controls of a run that returns are the domains group followed
    by the packages group, and a tag has a row in a group exactly when
    some fetched record has it under that category. *)
Theorem control_rows_exact (order : set_order) body cookbook_entries controls cards :
  render_cookbooks_from order body cookbook_entries = Return (controls, cards) →
  ∃ domains_group packages_group,
    control_groups controls = [domains_group; packages_group] ∧
    group_class domains_group = Some ["domains"] ∧
    group_class packages_group = Some ["packages"] ∧
    (∀ tag, Some tag ∈ row_tag <$> group_rows domains_group ↔
            ∃ name data s, (name, Some data) ∈ zip body cookbook_entries ∧
                           tag_set data "domains" = Return s ∧ tag ∈ s) ∧
    (∀ tag, Some tag ∈ row_tag <$> group_rows packages_group ↔
            ∃ name data s, (name, Some data) ∈ zip body cookbook_entries ∧
                           tag_set data "packages" = Return s ∧ tag ∈ s).
Proof.
  intros H.
  apply render_cookbooks_from_inv in H as (dtags & ptags & Hall & Hd & Hp & -> & _).
  assert (∀ cat tags,
            cat = "domains" ∨ cat = "packages" →
            sorted (order (⋃ (tags_of cat <$> (fetched body cookbook_entries).*2)))
              = Return tags →
            ∀ tag, Some tag ∈ row_tag <$> (row_node "packages" <$> tags) ↔
                   ∃ name data s, (name, Some data) ∈ zip body cookbook_entries ∧
                                  tag_set data cat = Return s ∧ tag ∈ s) as Hrows.
  { intros cat tags Hcat Hs tag. rewrite row_tag_row_node.
    rewrite (list_elem_of_fmap_inj Some), (sorted_elem_of _ _ _ Hs).
    rewrite enum_perm, elem_of_elements, elem_of_union_list. split.
    - intros (s & Hin & Htag).
      apply list_elem_of_fmap in Hin as (data & -> & Hin).
      apply list_elem_of_fmap in Hin as ([name data'] & -> & Hin).
      cbn [snd] in *. exists name, data', (tags_of cat data').
      split; [by apply fetched_elem_of|]. split; [|done].
      rewrite Forall_forall in Hall.
      assert (collectable data') as [[sd Hsd] [sp Hsp]].
      { apply Hall, list_elem_of_fmap. by exists (name, data'). }
      unfold tags_of. destruct Hcat as [->| ->]; [by rewrite Hsd | by rewrite Hsp].
    - intros (name & data & s & Hin & Hs' & Htag).
      exists s. split; [|done]. apply list_elem_of_fmap. exists data. split.
      + unfold tags_of. by rewrite Hs'.
      + apply list_elem_of_fmap. exists (name, data). split; [done|].
        by apply fetched_elem_of. }
  eexists _, _. split; [reflexivity|]. split; [done|]. split; [done|].
  cbn [group_rows]. split; eauto.
Qed.

Lemma control_rows_exact_witness :
  ∃ domains_group packages_group,
    control_groups
      (controls_of "packages"
         [KStr "atmosphere"; KStr "ocean"; KStr "radar"]
         [KStr "dask"; KStr "pyart"; KStr "xarray"])
      = [domains_group; packages_group] ∧
    group_class domains_group = Some ["domains"] ∧
    group_class packages_group = Some ["packages"] ∧
    (∀ tag, Some tag ∈ row_tag <$> group_rows domains_group ↔
            ∃ name data s,
              (name, Some data) ∈ zip ["radar-cookbook"; "lost-cookbook"; "ocean-cookbook"]
                                      [Some radar; None; Some ocean] ∧
              tag_set data "domains" = Return s ∧ tag ∈ s) ∧
    (∀ tag, Some tag ∈ row_tag <$> group_rows packages_group ↔
            ∃ name data s,
              (name, Some data) ∈ zip ["radar-cookbook"; "lost-cookbook"; "ocean-cookbook"]
                                      [Some radar; None; Some ocean] ∧
              tag_set data "packages" = Return s ∧ tag ∈ s).
Proof.
  apply (control_rows_exact canonical_order
           ["radar-cookbook"; "lost-cookbook"; "ocean-cookbook"]
           [Some radar; None; Some ocean] _
           [render_cookbook "radar-cookbook" radar;
            render_cookbook "ocean-cookbook" ocean]).
  vm_compute. reflexivity.
Defined.

(** ** What the card sequence shows *)

Lemma store_cards_lookup cd l name :
  store_cards cd l !! name =
  match last_fetched name l with
  | Some data => Some (render_cookbook name data)
  | None => cd !! name
  end.
Proof.
  revert cd. induction l as [|[n d] l IH]; intros cd; [done|].
  cbn [store_cards foldl fst snd last_fetched].
  fold (store_cards (<[n:=render_cookbook n d]> cd) l). rewrite IH.
  destruct (last_fetched name l); [done|].
  destruct (decide (n = name)) as [->|Hne].
  - by rewrite lookup_insert_eq.
  - by rewrite lookup_insert_ne.
Qed.

Lemma last_fetched_None name l : last_fetched name l = None ↔ name ∉ l.*1.
Proof.
  induction l as [|[n d] l IH]; cbn [last_fetched fmap list_fmap fst].
  - split; [intros _; apply not_elem_of_nil | done].
  - rewrite not_elem_of_cons, <-IH.
    destruct (last_fetched name l); [split; [done | by intros [_ ?]]|].
    destruct (decide (n = name)) as [->|Hne].
    + split; [done | by intros [? _]].
    + split; [intros _; split; [congruence | done] | done].
Qed.

Lemma last_fetched_NoDup name data l :
  NoDup l.*1 → (name, data) ∈ l → last_fetched name l = Some data.
Proof.
  induction l as [|[n d] l IH]; intros Hnd Hin; [by apply elem_of_nil in Hin|].
  cbn [fmap list_fmap fst] in Hnd. apply NoDup_cons in Hnd as [Hn Hnd].
  cbn [last_fetched fst snd]. apply elem_of_cons in Hin as [[= -> ->]|Hin].
  - apply last_fetched_None in Hn as ->. by rewrite decide_True.
  - by rewrite (IH Hnd Hin).
Qed.

(** X9: every occurrence of an identifier for which some fetch returned a
    record gets an entry in the card sequence, in the order of the input,
    and the entry is what rendering gives for the record fetched last
    under that identifier; identifiers without a record get none. *)
Theorem cards_show_last_fetched (order : set_order) body cookbook_entries controls cards :
  render_cookbooks_from order body cookbook_entries = Return (controls, cards) →
  cards = omap (λ name, render_cookbook name
                          <$> last_fetched name (fetched body cookbook_entries)) body.
Proof.
  intros H. apply render_cookbooks_from_inv in H as (_ & _ & _ & _ & _ & _ & ->).
  unfold cookbook_nodes. apply list_omap_ext, Forall2_same_length_lookup.
  split; [done|]. intros i n n' Hn Hn'. assert (n' = n) as -> by congruence.
  rewrite store_cards_lookup, lookup_empty.
  by destruct (last_fetched n _).
Qed.

Lemma cards_show_last_fetched_witness :
  [render_cookbook "radar-cookbook" ocean; render_cookbook "radar-cookbook" ocean]
  = omap (λ name, render_cookbook name
                    <$> last_fetched name
                          (fetched ["radar-cookbook"; "lost-cookbook"; "radar-cookbook"]
                                   [Some radar; None; Some ocean]))
      ["radar-cookbook"; "lost-cookbook"; "radar-cookbook"].
Proof.
  apply (cards_show_last_fetched canonical_order
           ["radar-cookbook"; "lost-cookbook"; "radar-cookbook"]
           [Some radar; None; Some ocean]
           (controls_of "packages"
              [KStr "atmosphere"; KStr "ocean"; KStr "radar"]
              [KStr "dask"; KStr "pyart"; KStr "xarray"])).
  vm_compute. reflexivity.
Defined.

Lemma fetched_names_sublist body cookbook_entries :
  (fetched body cookbook_entries).*1 `sublist_of` body.
Proof.
  unfold fetched. revert cookbook_entries.
  induction body as [|name body IH]; intros [|e entries]; cbn [zip zip_with];
    try apply sublist_nil_l.
  cbn [omap list_omap fst snd]. destruct e as [data|]; cbn [fmap option_fmap option_map].
  - cbn [list_fmap fst]. apply sublist_skip, IH.
  - apply sublist_cons, IH.
Qed.

(** X10: when no identifier occurs twice, the card sequence has one entry
    for each fetched record, in the order of the input: [None] where the
    card could not be rendered, the card elsewhere. *)
Theorem cards_of_distinct_names (order : set_order) body cookbook_entries controls cards :
  NoDup body →
  length cookbook_entries = length body →
  render_cookbooks_from order body cookbook_entries = Return (controls, cards) →
  cards = omap (λ entry, render_cookbook entry.1 <$> entry.2)
               (zip body cookbook_entries).
Proof.
  intros Hnd Hlen H.
  apply render_cookbooks_from_inv in H as (_ & _ & _ & _ & _ & _ & ->).
  unfold cookbook_nodes.
  assert (NoDup (fetched body cookbook_entries).*1) as Hnd'.
  { apply (sublist_NoDup _ body); [done | apply fetched_names_sublist]. }
  assert (∀ i e, zip body cookbook_entries !! i = Some e → body !! i = Some e.1)
    as Hzip.
  { intros i e He. apply (f_equal (fmap fst)) in He.
    rewrite <-list_lookup_fmap, fst_zip in He by lia. done. }
  apply list_omap_ext, Forall2_same_length_lookup. split.
  { rewrite length_zip_with. lia. }
  intros i n e Hn He. pose proof (Hzip _ _ He) as Hn'.
  assert (n = e.1) as -> by congruence.
  destruct e as [name [data|]]; cbn [fst snd fmap option_fmap option_map] in *.
  - rewrite store_cards_lookup, (last_fetched_NoDup name data); [done|done|].
    apply fetched_elem_of. by eapply list_elem_of_lookup_2.
  - rewrite store_cards_lookup, lookup_empty.
    assert (last_fetched name (fetched body cookbook_entries) = None) as ->; [|done].
    apply last_fetched_None. intros Hin.
    apply list_elem_of_fmap in Hin as ([n d] & -> & Hin). cbn [fst] in *.
    apply fetched_elem_of, list_elem_of_lookup in Hin as [j Hj].
    pose proof (Hzip _ _ Hj) as Hbj. cbn [fst] in Hbj.
    assert (i = j) as -> by exact (NoDup_lookup body i j n Hnd Hn Hbj).
    congruence.
Qed.

Lemma cards_of_distinct_names_witness :
  [render_cookbook "radar-cookbook" radar; None; render_cookbook "ocean-cookbook" ocean]
  = omap (λ entry, render_cookbook entry.1 <$> entry.2)
         (zip ["radar-cookbook"; "lost-cookbook"; "broken-cookbook"; "ocean-cookbook"]
              [Some radar; None; Some broken; Some ocean]).
Proof.
  apply (cards_of_distinct_names canonical_order
           ["radar-cookbook"; "lost-cookbook"; "broken-cookbook"; "ocean-cookbook"]
           [Some radar; None; Some broken; Some ocean]
           (controls_of "packages"
              [KStr "atmosphere"; KStr "climate"; KStr "ocean"; KStr "radar"]
              [KStr "dask"; KStr "pyart"; KStr "xarray"])).
  - apply (bool_decide_unpack _). vm_compute. reflexivity.
  - reflexivity.
  - vm_compute. reflexivity.
Defined.

(** ** The transform and the directive *)

Lemma rewrite_no_placeholder fragment (n : node) :
  has_placeholder n = false → rewrite_placeholders fragment n = n.
Proof.
  revert n. fix IH 1. intros [ | | | | | | | | |type props children]; try done.
  cbn [has_placeholder rewrite_placeholders]. intros H.
  apply orb_false_iff in H as [Htype Hchildren].
  apply bool_decide_eq_false in Htype. rewrite decide_False by done. f_equal.
  induction children as [|child children IHc]; [done|].
  cbn [existsb] in Hchildren. apply orb_false_iff in Hchildren as [Hc Hcs].
  cbn [map]. f_equal; [by apply IH | by apply IHc].
Qed.

Section TransformFacts.
Variable fetch_yaml : string → result yaml.
Variable py_format : yaml → string.

(** X11: on a document without placeholder the transform still fetches
    and renders everything: it returns the document as it is when
    rendering returns, raises what rendering raises, and does not return
    when the fetches do not. *)
Theorem transform_without_placeholder (r : run) body data :
  has_placeholder data = false →
  run_transform fetch_yaml py_format r body data =
  (λ rendered, bind rendered (λ _, Return data))
    <$> render_cookbooks fetch_yaml py_format r body.
Proof.
  intros H. unfold run_transform.
  destruct (render_cookbooks fetch_yaml py_format r body) as [rendered|]; [|done].
  cbn [mbind option_bind fmap option_fmap option_map]. f_equal.
  destruct rendered as [out|err]; [|done]. cbn [bind].
  by rewrite rewrite_no_placeholder.
Qed.

(** X12: the nodes the directive returns, put under any node of a document
    that is not itself a placeholder, are what the transform replaces:
    they become one container holding the controls and then the grid of
    the cards, laid out in 1, 1, 2 and 3 columns. *)
Theorem directive_then_transform (r : run) body name data nodes type props :
  run_directive name data = Some nodes →
  type ≠ "pythia-cookbooks" →
  run_transform fetch_yaml py_format r body (element type props nodes) =
  (λ rendered,
     bind rendered (λ out,
       Return (element type props
                 [container [out.1; grid [1; 1; 2; 3]%Z out.2]])))
    <$> render_cookbooks fetch_yaml py_format r body.
Proof.
  unfold run_directive. intros Hd Htype.
  destruct (decide (name = "pythia-cookbooks")); [|done]. injection Hd as <-.
  unfold run_transform.
  destruct (render_cookbooks fetch_yaml py_format r body) as [rendered|]; [|done].
  cbn [mbind option_bind fmap option_fmap option_map]. f_equal.
  destruct rendered as [out|err]; [|done]. cbn [bind rewrite_placeholders map].
  by rewrite decide_False, decide_True.
Qed.

(** X13: [render_cookbooks] does not return, and raises nothing, exactly
    when the fetch of some identifier never completes. *)
Theorem run_stalls_iff (r : run) body :
  render_cookbooks fetch_yaml py_format r body = None ↔
  ∃ i, i < length body ∧ i ∉ schedule r.
Proof.
  unfold render_cookbooks. split.
  - intros Hnone.
    destruct (decide (Exists (λ i, i ∉ schedule r) (seq 0 (length body)))) as [Hex|Hall].
    + apply Exists_exists in Hex as (i & Hi & Hnot).
      apply elem_of_seq in Hi. exists i. split; [lia | done].
    + apply not_Exists_Forall in Hall; [|apply _].
      rewrite Forall_forall in Hall.
      rewrite pool_map_all in Hnone; [done|].
      intros i Hi. specialize (Hall i). cbn [compose] in Hall.
      apply dec_stable, Hall, elem_of_seq. lia.
  - intros (i & Hi & Hnot).
    assert (pool_map (schedule r) (fetch_cookbook_data fetch_yaml py_format) body
            = None) as ->; [|done].
    unfold pool_map, results. apply mapM_None.
    apply lookup_lt_is_Some in Hi as [name Hname].
    apply Exists_exists. exists (name, None). split; [|done].
    apply list_elem_of_lookup. exists i.
    rewrite run_workers_lookup. unfold submit_all.
    rewrite list_lookup_fmap, Hname. cbn [fmap option_fmap option_map].
    by rewrite decide_False.
Qed.
End TransformFacts.

Lemma transform_without_placeholder_witness :
  run_transform sample_site sample_format (Run [1; 0] canonical_order)
    ["radar-cookbook"; "plain-cookbook"] plain_document =
  (λ rendered, bind rendered (λ _, Return plain_document))
    <$> render_cookbooks sample_site sample_format (Run [1; 0] canonical_order)
          ["radar-cookbook"; "plain-cookbook"].
Proof.
  apply (transform_without_placeholder sample_site sample_format). reflexivity.
Defined.

Lemma directive_then_transform_witness :
  run_transform sample_site sample_format (Run [1; 0] canonical_order)
    ["radar-cookbook"; "plain-cookbook"]
    (element "root" [] [element "pythia-cookbooks" [] []]) =
  (λ rendered,
     bind rendered (λ out,
       Return (element "root" []
                 [container [out.1; grid [1; 1; 2; 3]%Z out.2]])))
    <$> render_cookbooks sample_site sample_format (Run [1; 0] canonical_order)
          ["radar-cookbook"; "plain-cookbook"].
Proof.
  apply (directive_then_transform sample_site sample_format
           (Run [1; 0] canonical_order) ["radar-cookbook"; "plain-cookbook"]
           "pythia-cookbooks" plain_document).
  - reflexivity.
  - discriminate.
Defined.

(** ** A category given as a plain string *)

(** The characters of a string, put end to end, are the string: no byte
    is lost or moved. *)
Lemma chars_append s : foldr String.append EmptyString (chars s) = s.
Proof.
  induction s as [|c s IH]; [done|]. cbn [chars].
  destruct (chars s) as [|w ws].
  - cbn in IH. by subst.
  - cbn [foldr] in IH. destruct (continued s); cbn [foldr].
    + change (String c w +:+ foldr String.append EmptyString ws)
        with (String c (w +:+ foldr String.append EmptyString ws)).
      by rewrite IH.
    + change (String c EmptyString
                +:+ (w +:+ foldr String.append EmptyString ws))
        with (String c (w +:+ foldr String.append EmptyString ws)).
      by rewrite IH.
Qed.

(** A two-byte character stays whole. *)
Lemma chars_code_points : chars "né" = ["n"; "é"] ∧ chars "日本x" = ["日"; "本"; "x"].
Proof. split; reflexivity. Qed.




(** ** The order of the input and the controls *)

Lemma Forall_same_members {A} (P : A → Prop) (l1 l2 : list A) :
  (∀ x, x ∈ l1 ↔ x ∈ l2) → Forall P l1 → Forall P l2.
Proof.
  intros Hmem. rewrite !Forall_forall. intros H x Hx. by apply H, Hmem.
Qed.

(** X15: the controls do not depend on the order of the identifiers: when
    a run returns, a run on the same identifiers with the same entries
    in another order returns the same controls. *)
Theorem controls_ignore_input_order (order : set_order) body1 entries1 body2 entries2
    controls cards :
  zip body1 entries1 ≡ₚ zip body2 entries2 →
  render_cookbooks_from order body1 entries1 = Return (controls, cards) →
  ∃ cards', render_cookbooks_from order body2 entries2 = Return (controls, cards').
Proof.
  intros Hperm H.
  apply render_cookbooks_from_inv in H as (dtags & ptags & Hall & Hd & Hp & -> & _).
  assert (fetched body1 entries1 ≡ₚ fetched body2 entries2) as Hf.
  { unfold fetched. by rewrite Hperm. }
  assert (∀ data, data ∈ (fetched body1 entries1).*2
                  ↔ data ∈ (fetched body2 entries2).*2) as Hmem.
  { intros data. by rewrite Hf. }
  rewrite render_cookbooks_from_eq.
  assert (is_Return (aggregate (fetched body2 entries2).*2)) as [index ->].
  { apply aggregate_is_Return. by eapply Forall_same_members. }
  cbn [bind].
  rewrite <-!(union_list_same_members _ _ _ Hmem), Hd, Hp. cbn [bind]. eauto.
Qed.

Lemma controls_ignore_input_order_witness :
  ∃ cards',
    render_cookbooks_from canonical_order
      ["ocean-cookbook"; "radar-cookbook"; "lost-cookbook"]
      [Some ocean; Some radar; None]
    = Return (controls_of "packages"
                [KStr "atmosphere"; KStr "ocean"; KStr "radar"]
                [KStr "dask"; KStr "pyart"; KStr "xarray"],
              cards').
Proof.
  apply (controls_ignore_input_order canonical_order
           ["radar-cookbook"; "lost-cookbook"; "ocean-cookbook"]
           [Some radar; None; Some ocean]
           ["ocean-cookbook"; "radar-cookbook"; "lost-cookbook"]
           [Some ocean; Some radar; None]
           _ [render_cookbook "radar-cookbook" radar;
              render_cookbook "ocean-cookbook" ocean]).
  - cbn [zip zip_with].
    apply (Permutation_cons_app
             [("ocean-cookbook", Some ocean)] [("lost-cookbook", None)]
             ("radar-cookbook", Some radar)).
    apply perm_swap.
  - vm_compute. reflexivity.
Defined.

(** ** Fetching in parallel and rendering *)

Section Parallel.
Variable fetch_yaml : string → result yaml.
Variable py_format : yaml → string.

(** X16: once every fetch has completed, [render_cookbooks] gives what
    the loop gives on the records fetched one identifier after the other:
    running the fetches in parallel changes nothing. *)
Theorem render_cookbooks_sequential (r : run) body :
  (∀ i, i < length body → i ∈ schedule r) →
  render_cookbooks fetch_yaml py_format r body =
  Some (render_cookbooks_from (order r) body
          (fetch_cookbook_data fetch_yaml py_format <$> body)).
Proof.
  intros Hall. unfold render_cookbooks. by rewrite pool_map_all.
Qed.
End Parallel.

Lemma render_cookbooks_sequential_witness :
  render_cookbooks sample_site sample_format (Run [2; 0; 1] reversed_order)
    ["radar-cookbook"; "lost-cookbook"; "plain-cookbook"] =
  Some (render_cookbooks_from reversed_order
          ["radar-cookbook"; "lost-cookbook"; "plain-cookbook"]
          (fetch_cookbook_data sample_site sample_format
             <$> ["radar-cookbook"; "lost-cookbook"; "plain-cookbook"])).
Proof.
  apply (render_cookbooks_sequential sample_site sample_format
           (Run [2; 0; 1] reversed_order)
           ["radar-cookbook"; "lost-cookbook"; "plain-cookbook"]).
  intros i Hi. cbn [schedule]. cbn [length] in Hi.
  destruct i as [|[|[|i]]]; [| | |lia].
  - right. left.
  - right. right. left.
  - left.
Defined.

(** ** Failed fetches, occurrence by occurrence *)

(** C4, as it is worded: an identifier listed twice whose first fetch
    returns a record and whose second fetch fails still gets two cards,
    where the fetched occurrence alone gets one. *)
Lemma duplicate_with_failed_fetch_keeps_its_card :
  ∃ controls cards controls' cards',
    render_cookbooks_from canonical_order
      ["radar-cookbook"; "radar-cookbook"] [Some radar; None]
      = Return (controls, cards) ∧
    render_cookbooks_from canonical_order ["radar-cookbook"] [Some radar]
      = Return (controls', cards') ∧
    length cards = 2 ∧ length cards' = 1 ∧ cards ≠ cards'.
Proof.
  do 4 eexists. split; [vm_compute; reflexivity|].
  split; [vm_compute; reflexivity|].
  split; [reflexivity|]. split; [reflexivity|]. discriminate.
Qed.

Lemma omap_ext_elem_of {A B} (f g : A → option B) (l : list A) :
  (∀ x, x ∈ l → f x = g x) → omap f l = omap g l.
Proof.
  induction l as [|x l IH]; intros H; [done|]. cbn [omap list_omap].
  rewrite (H x) by by left. rewrite IH; [done|]. intros y Hy. apply H. by right.
Qed.

Lemma omap_filter_None {A B} (f : A → option B) (P : A → Prop)
    `{∀ x, Decision (P x)} (l : list A) :
  (∀ x, x ∈ l → ¬ P x → f x = None) → omap f (filter P l) = omap f l.
Proof.
  induction l as [|x l IH]; intros H'; [done|].
  rewrite filter_cons. cbn [omap list_omap].
  assert (omap f (filter P l) = omap f l) as IH'.
  { apply IH. intros y Hy. apply H'. by right. }
  destruct (decide (P x)) as [HP|HP].
  - cbn [omap list_omap]. by rewrite IH'.
  - rewrite IH', (H' x); [done | by left | done].
Qed.

Lemma omap_fmap_compose {A B C} (f : B → option C) (g : A → B) (l : list A) :
  omap f (g <$> l) = omap (f ∘ g) l.
Proof.
  induction l as [|x l IH]; [done|]. cbn [fmap list_fmap omap list_omap compose].
  by rewrite IH.
Qed.

Lemma last_fetched_elem_of name data l :
  last_fetched name l = Some data → (name, data) ∈ l.
Proof.
  induction l as [|[n d] l IH]; [done|]. cbn [last_fetched fst snd].
  destruct (last_fetched name l) as [d'|].
  - intros [= ->]. right. by apply IH.
  - destruct (decide (n = name)) as [->|]; [|done]. intros [= ->]. by left.
Qed.

Section SameOutcome.
Variable body : list string.
Variable cookbook_entries : list (option cookbook).
Hypothesis same_length : length cookbook_entries = length body.
(** Every occurrence of an identifier has the same outcome. *)
Hypothesis same_outcome :
  ∀ i j name, body !! i = Some name → body !! j = Some name →
              cookbook_entries !! i = cookbook_entries !! j.

Lemma zip_same_outcome name e e' :
  (name, e) ∈ zip body cookbook_entries →
  (name, e') ∈ zip body cookbook_entries →
  e = e'.
Proof.
  intros [i Hi]%list_elem_of_lookup [j Hj]%list_elem_of_lookup.
  pose proof (f_equal (fmap fst) Hi) as Hbi.
  pose proof (f_equal (fmap fst) Hj) as Hbj.
  pose proof (f_equal (fmap snd) Hi) as Hei.
  pose proof (f_equal (fmap snd) Hj) as Hej.
  rewrite <-list_lookup_fmap, fst_zip in Hbi, Hbj by lia.
  rewrite <-list_lookup_fmap, snd_zip in Hei, Hej by lia.
  cbn in Hbi, Hbj, Hei, Hej.
  pose proof (same_outcome i j name Hbi Hbj) as Heq. congruence.
Qed.

Lemma stored_card_same_outcome name e :
  (name, e) ∈ zip body cookbook_entries →
  store_cards ∅ (fetched body cookbook_entries) !! name = render_cookbook name <$> e.
Proof.
  intros Hin. rewrite store_cards_lookup, lookup_empty.
  destruct (last_fetched name (fetched body cookbook_entries)) as [d|] eqn:Hlast.
  - apply last_fetched_elem_of, fetched_elem_of in Hlast.
    by rewrite (zip_same_outcome name e (Some d)).
  - destruct e as [d|]; [|done].
    apply last_fetched_None in Hlast. destruct Hlast.
    apply list_elem_of_fmap. exists (name, d). split; [done|].
    by apply fetched_elem_of.
Qed.

Lemma cookbook_nodes_zip cd :
  cookbook_nodes body cd = omap (λ e, cd !! e.1) (zip body cookbook_entries).
Proof.
  unfold cookbook_nodes.
  rewrite <-(fst_zip body cookbook_entries) at 1 by lia.
  apply omap_fmap_compose.
Qed.

Lemma fetched_successful_entries :
  fetched (successful body cookbook_entries).*1 (successful body cookbook_entries).*2
  = fetched body cookbook_entries.
Proof.
  unfold fetched. rewrite zip_fst_snd. unfold successful.
  apply omap_filter_None. intros [name [d|]] _ Hnot; [|done].
  destruct Hnot. by eexists.
Qed.

(** C4, for outcomes that go with the identifier: when every occurrence
    of an identifier has the same fetch outcome, as when no identifier
    occurs twice, the run gives what it gives on the fetched occurrences
    alone, and its card sequence has one entry for each fetched
    occurrence, in the order of the input: failed fetches are taken out,
    nothing is put in their place. *)
Theorem consistent_failures_are_removals (order : set_order) :
  render_cookbooks_from order body cookbook_entries
  = render_cookbooks_from order
      (successful body cookbook_entries).*1 (successful body cookbook_entries).*2 ∧
  ∀ controls cards,
    render_cookbooks_from order body cookbook_entries = Return (controls, cards) →
    cards = omap (λ e, render_cookbook e.1 <$> e.2) (zip body cookbook_entries).
Proof.
  split.
  - rewrite !render_cookbooks_from_eq, fetched_successful_entries.
    assert (cookbook_nodes (successful body cookbook_entries).*1
              (store_cards ∅ (fetched body cookbook_entries))
            = cookbook_nodes body (store_cards ∅ (fetched body cookbook_entries)))
      as ->; [|done].
    rewrite cookbook_nodes_zip. unfold cookbook_nodes, successful.
    rewrite omap_fmap_compose. apply omap_filter_None.
    intros [name e] Hin Hnot. cbn [compose fst snd] in *.
    rewrite (stored_card_same_outcome name e Hin).
    destruct e as [d|]; [|done]. destruct Hnot. by eexists.
  - intros controls cards H.
    apply render_cookbooks_from_inv in H as (_ & _ & _ & _ & _ & _ & ->).
    rewrite cookbook_nodes_zip. apply omap_ext_elem_of.
    intros [name e] Hin. by apply stored_card_same_outcome.
Qed.
End SameOutcome.

Lemma consistent_failures_are_removals_witness :
  render_cookbooks_from reversed_order
    ["radar-cookbook"; "lost-cookbook"; "radar-cookbook"; "ocean-cookbook"; "lost-cookbook"]
    [Some radar; None; Some radar; Some ocean; None]
  = render_cookbooks_from reversed_order
      ["radar-cookbook"; "radar-cookbook"; "ocean-cookbook"]
      [Some radar; Some radar; Some ocean] ∧
  ∀ controls cards,
    render_cookbooks_from reversed_order
      ["radar-cookbook"; "lost-cookbook"; "radar-cookbook"; "ocean-cookbook"; "lost-cookbook"]
      [Some radar; None; Some radar; Some ocean; None]
      = Return (controls, cards) →
    cards = [render_cookbook "radar-cookbook" radar;
             render_cookbook "radar-cookbook" radar;
             render_cookbook "ocean-cookbook" ocean].
Proof.
  apply (consistent_failures_are_removals
           ["radar-cookbook"; "lost-cookbook"; "radar-cookbook"; "ocean-cookbook"; "lost-cookbook"]
           [Some radar; None; Some radar; Some ocean; None]).
  - reflexivity.
  - intros i j name.
    destruct i as [|[|[|[|[|i]]]]]; simpl; try discriminate;
      destruct j as [|[|[|[|[|j]]]]]; simpl; try discriminate;
      intros [= <-]; try discriminate; reflexivity.
Defined.
